(** * merge.py: a shallow embedding of the video merge utility

    The development follows [src/merge.py] function by function; the
    string work of [src/video_2.py] is in module [Veo].

    Data.  A Python [str] is a [string]; every [ascii] stands for the
    code point of the same number, so the strings covered are those
    whose code points lie in U+0000..U+00FF (the range CPython stores
    as a one-byte string).  Python integers are [N] or [Z].  The file
    system is a finite map from path strings to nodes.

    Effects.  A raised exception is the [Raise] branch of [result];
    code that touches the outside world runs in a state-and-exception
    monad over [World], and everything the operating system or the
    external transcoder decides is read from an [Env] record. *)

From Stdlib Require Import NArith ZArith Ascii String Bool List Lia DecimalString.
From stdpp Require Import base option list sorting strings gmap.

Local Open Scope string_scope.
Local Open Scope N_scope.

(** ** Exceptions *)

Inductive exn : Type :=
| ValueError
| TypeError
| OSError
| FileNotFoundError
| SystemExit
| KeyboardInterrupt.

(** [except Exception] catches everything but the [BaseException]-only
    classes. *)
Definition is_Exception (e : exn) : bool :=
  match e with
  | SystemExit | KeyboardInterrupt => false
  | _ => true
  end.

Inductive result (A : Type) : Type :=
| Ok (a : A)
| Raise (e : exn).
Arguments Ok {A} a.
Arguments Raise {A} e.

Definition rbind {A B} (r : result A) (k : A -> result B) : result B :=
  match r with
  | Ok a => k a
  | Raise e => Raise e
  end.

Fixpoint rmap_list {A B} (f : A -> result B) (l : list A) : result (list B) :=
  match l with
  | [] => Ok []
  | x :: l' =>
      rbind (f x) (fun y => rbind (rmap_list f l') (fun ys => Ok (y :: ys)))
  end.

(** ** Characters and strings *)

Module Str.

Definition code (c : ascii) : N := N_of_ascii c.

(** The class [\d] of a [str] pattern: Unicode category Nd, which
    below U+0100 is the ten ASCII digits. *)
Definition is_decimal (c : ascii) : bool :=
  (48 <=? code c) && (code c <=? 57).

(** The characters [str.isdigit] accepts: Numeric_Type Decimal or
    Digit, which below U+0100 adds the superscripts U+00B2, U+00B3 and
    U+00B9 to the ASCII digits. *)
Definition char_isdigit (c : ascii) : bool :=
  is_decimal c || (code c =? 178) || (code c =? 179) || (code c =? 185).

(** [str.lower] on one character: A..Z and the capital letters
    U+00C0..U+00DE other than the multiplication sign U+00D7 move up
    by 32. *)
Definition char_lower (c : ascii) : ascii :=
  let n := code c in
  if ((65 <=? n) && (n <=? 90))
     || ((192 <=? n) && (n <=? 222) && negb (n =? 215))
  then ascii_of_N (n + 32)
  else c.

Fixpoint lower (s : string) : string :=
  match s with
  | EmptyString => EmptyString
  | String c s' => String (char_lower c) (lower s')
  end.

Fixpoint forallb (p : ascii -> bool) (s : string) : bool :=
  match s with
  | EmptyString => true
  | String c s' => p c && forallb p s'
  end.

Definition is_empty (s : string) : bool :=
  match s with
  | EmptyString => true
  | String _ _ => false
  end.

(** [s.isdigit()]: at least one character and all of them digits. *)
Definition isdigit (s : string) : bool :=
  negb (is_empty s) && forallb char_isdigit s.

Definition digit_value (c : ascii) : N := code c - 48.

Fixpoint int_acc (acc : N) (s : string) : N :=
  match s with
  | EmptyString => acc
  | String c s' => int_acc (10 * acc + digit_value c) s'
  end.

(** [int(s)] on the strings the program passes to it, those with
    [s.isdigit()]: the base-10 value when every character is a decimal
    digit, and [ValueError] otherwise ([int] rejects the superscript
    digits).  The interpreter's cap on the number of digits (4300 by
    default) is far above the length of a file name and is left out. *)
Definition int (s : string) : result N :=
  if negb (is_empty s) && forallb is_decimal s
  then Ok (int_acc 0 s)
  else Raise ValueError.

(** [s.startswith(p)] *)
Fixpoint startswith (p s : string) : bool :=
  match p, s with
  | EmptyString, _ => true
  | String a p', String b s' => Ascii.eqb a b && startswith p' s'
  | String _ _, EmptyString => false
  end.

(** [s.replace(old, new)] for a one-character [old]. *)
Fixpoint replace_char (old : ascii) (new : string) (s : string) : string :=
  match s with
  | EmptyString => EmptyString
  | String c s' =>
      if Ascii.eqb c old then new +:+ replace_char old new s'
      else String c (replace_char old new s')
  end.

Fixpoint concat (l : list string) : string :=
  match l with
  | [] => EmptyString
  | s :: l' => s +:+ concat l'
  end.

(** [sep.join(l)] *)
Fixpoint join (sep : string) (l : list string) : string :=
  match l with
  | [] => EmptyString
  | [s] => s
  | s :: l' => s +:+ sep +:+ join sep l'
  end.

(** [s.split(sep)] for a one-character separator: always at least one
    piece. *)
Fixpoint split_char (sep : ascii) (s : string) : list string :=
  match s with
  | EmptyString => [EmptyString]
  | String c s' =>
      if Ascii.eqb c sep then EmptyString :: split_char sep s'
      else match split_char sep s' with
           | p :: ps => String c p :: ps
           | [] => [String c EmptyString]
           end
  end.

End Str.

(** ** [natural_sort_key] *)

(** [re.split(r"(\d+)", s)]: the pieces of [s] between the maximal runs
    of decimal digits, with the runs themselves (the capturing group) in
    between.  The list has odd length: text, digits, text, ..., text,
    where the first and the last text may be empty. *)
Fixpoint re_split_digits (s : string) : list string :=
  match s with
  | EmptyString => [EmptyString]
  | String c s' =>
      match re_split_digits s' with
      | t0 :: rest =>
          if Str.is_decimal c then
            match t0, rest with
            | EmptyString, d1 :: rest' =>
                EmptyString :: String c d1 :: rest'
            | _, _ => EmptyString :: String c EmptyString :: t0 :: rest
            end
          else String c t0 :: rest
      | [] => [String c EmptyString]
      end
  end.

(** An element of a key: a Python [int] or a Python [str]. *)
Inductive key_elem : Type :=
| KInt (n : N)
| KStr (s : string).

Definition key_of_text (text : string) : result key_elem :=
  if Str.isdigit text
  then rbind (Str.int text) (fun n => Ok (KInt n))
  else Ok (KStr (Str.lower text)).

Definition natural_sort_key (s : string) : result (list key_elem) :=
  rmap_list key_of_text (re_split_digits s).

(** *** Comparing keys, as Python compares lists *)

(** [x == y] between an [int] and a [str] is [False], never an error. *)
Definition elem_eqb (x y : key_elem) : bool :=
  match x, y with
  | KInt m, KInt n => m =? n
  | KStr s, KStr t => String.eqb s t
  | _, _ => false
  end.

(** [x < y] raises [TypeError] between an [int] and a [str]; strings
    compare by code point. *)
Definition elem_lt (x y : key_elem) : result bool :=
  match x, y with
  | KInt m, KInt n => Ok (m <? n)
  | KStr s, KStr t => Ok (String.ltb s t)
  | _, _ => Raise TypeError
  end.

(** [a < b] on lists: the first index where the elements are not equal
    decides; with none, the shorter list is the smaller. *)
Fixpoint key_lt (a b : list key_elem) : result bool :=
  match a, b with
  | [], [] => Ok false
  | [], _ :: _ => Ok true
  | _ :: _, [] => Ok false
  | x :: a', y :: b' =>
      if elem_eqb x y then key_lt a' b' else elem_lt x y
  end.

(** *** [list.sort(key=...)]

    All keys are computed first, then the items are ordered using only
    [<] on keys, stably.  The model is the stable insertion sort; for a
    comparison that is a strict weak order every stable sort returns the
    same list. *)
Section Sort.
Context {A K : Type} (lt : K -> K -> result bool).

Fixpoint insert_keyed (x : K * A) (l : list (K * A)) : result (list (K * A)) :=
  match l with
  | [] => Ok [x]
  | y :: l' =>
      rbind (lt (fst y) (fst x)) (fun b =>
        if b then rbind (insert_keyed x l') (fun r => Ok (y :: r))
        else Ok (x :: y :: l'))
  end.

Fixpoint sort_keyed (l : list (K * A)) : result (list (K * A)) :=
  match l with
  | [] => Ok []
  | x :: l' => rbind (sort_keyed l') (insert_keyed x)
  end.
End Sort.

Definition sort_by_key {A K} (key : A -> result K) (lt : K -> K -> result bool)
    (l : list A) : result (list A) :=
  rbind (rmap_list (fun x => rbind (key x) (fun k => Ok (k, x))) l) (fun kl =>
  rbind (sort_keyed lt kl) (fun sorted => Ok (map snd sorted))).

Definition natural_sort (l : list string) : result (list string) :=
  sort_by_key natural_sort_key key_lt l.

(** ** [os.path] (the POSIX flavour) *)

Module Path.

Fixpoint rfind_go (c : ascii) (s : string) (i last : Z) : Z :=
  match s with
  | EmptyString => last
  | String a s' => rfind_go c s' (i + 1)%Z (if Ascii.eqb a c then i else last)
  end.

(** [s.rfind(c)]: the last index of [c], or -1. *)
Definition rfind (c : ascii) (s : string) : Z := rfind_go c s 0%Z (-1)%Z.

(** [p[:k]] and [p[k:]] *)
Definition take (k : nat) (p : string) : string := substring 0 k p.
Definition drop (k : nat) (p : string) : string :=
  substring k (String.length p - k) p.

(** The loop of [genericpath._splitext] that skips the leading dots of
    the file name: [count] indices starting at [filenameIndex]. *)
Fixpoint has_non_dot (p : string) (filenameIndex count : nat) : bool :=
  match count with
  | O => false
  | S k =>
      match String.get filenameIndex p with
      | Some c =>
          if Ascii.eqb c "." then has_non_dot p (S filenameIndex) k else true
      | None => true
      end
  end.

Definition splitext (p : string) : string * string :=
  let sepIndex := rfind "/" p in
  let dotIndex := rfind "." p in
  if (sepIndex <? dotIndex)%Z
     && has_non_dot p (Z.to_nat (sepIndex + 1)) (Z.to_nat (dotIndex - (sepIndex + 1)))
  then (take (Z.to_nat dotIndex) p, drop (Z.to_nat dotIndex) p)
  else (p, EmptyString).

Definition isabs (p : string) : bool := Str.startswith "/" p.

Fixpoint endswith_slash (s : string) : bool :=
  match s with
  | EmptyString => false
  | String c EmptyString => Ascii.eqb c "/"
  | String _ s' => endswith_slash s'
  end.

(** [os.path.join(a, b)] *)
Definition join (a b : string) : string :=
  if Str.startswith "/" b then b
  else if Str.is_empty a || endswith_slash a then a +:+ b
  else a +:+ "/" +:+ b.

Definition norm_step (initial_slashes : nat) (new_comps : list string)
    (comp : string) : list string :=
  if String.eqb comp "" || String.eqb comp "." then new_comps
  else if negb (String.eqb comp "..")
          || (Nat.eqb initial_slashes 0 && bool_decide (new_comps = []))
          || match last new_comps with
             | Some l => String.eqb l ".."
             | None => false
             end
       then new_comps ++ [comp]
       else removelast new_comps.

Definition count_initial_slashes (path : string) : nat :=
  if Str.startswith "/" path then
    if Str.startswith "//" path && negb (Str.startswith "///" path)
    then 2%nat else 1%nat
  else 0%nat.

Fixpoint slashes (n : nat) : string :=
  match n with
  | O => EmptyString
  | S k => String "/" (slashes k)
  end.

Definition normpath (path : string) : string :=
  if Str.is_empty path then "."
  else
    let initial_slashes := count_initial_slashes path in
    let comps := Str.split_char "/" path in
    let new_comps := fold_left (norm_step initial_slashes) comps [] in
    let p := slashes initial_slashes +:+ Str.join "/" new_comps in
    if Str.is_empty p then "." else p.

(** [os.path.abspath(path)], with [cwd] the value of [os.getcwd()]. *)
Definition abspath (cwd path : string) : string :=
  normpath (if isabs path then path else join cwd path).

End Path.

(** ** The file system and the outside world *)

(** What a path resolves to.  A regular file carries its content; its
    size is the length of the content. *)
Inductive node : Type :=
| File (content : string)
| Dir (size : N)
| Special (size : N).

Abbreviation FS := (gmap string node).

Definition path_exists (fs : FS) (p : string) : bool :=
  match fs !! p with
  | Some _ => true
  | None => false
  end.

Definition path_isfile (fs : FS) (p : string) : bool :=
  match fs !! p with
  | Some (File _) => true
  | _ => false
  end.

Definition path_getsize (fs : FS) (p : string) : result N :=
  match fs !! p with
  | Some (File c) => Ok (N.of_nat (String.length c))
  | Some (Dir n) | Some (Special n) => Ok n
  | None => Raise FileNotFoundError
  end.

Record Namespace : Type := {
  output : option string;
  include_hidden : bool
}.

Record CompletedProcess : Type := {
  returncode : Z;
  stdout_text : string;
  stderr_text : string
}.

(** Everything decided outside the program. *)
Record Env : Type := {
  (** [shutil.which("ffmpeg")] *)
  which_ffmpeg : option string;
  (** [parse_args()] *)
  parsed_args : result Namespace;
  (** [os.getcwd()] *)
  getcwd : string;
  (** [os.listdir(cwd)] *)
  listdir : FS -> result (list string);
  (** [datetime.now().strftime("%Y%m%d_%H%M%S")] *)
  timestamp : string;
  (** The name [tempfile.NamedTemporaryFile] picks in a directory for a
      suffix, or the error of a directory it cannot write to. *)
  temp_name : string -> string -> FS -> result string;
  (** [subprocess.run(cmd, capture_output=True, text=True)]: the child
      may change the file system in any way, or fail to start. *)
  spawn : list string -> FS -> result CompletedProcess * FS;
  (** Whether [os.remove] of an existing path fails. *)
  remove_fails : string -> FS -> bool;
  (** The exception, if any, of [tmp.write(line)] on the temporary file
      of a name, given the text written to it so far (a line the
      encoding of the file cannot write, a full disk). *)
  write_error : string -> string -> string -> FS -> option exn;
  (** The exception, if any, of [tmp.close()] on the temporary file of a
      name when it flushes the text written, and then what has reached
      the file. *)
  close_error : string -> string -> FS -> option (exn * string)
}.

Record World : Type := {
  fs : FS;
  stdout : list string;
  stderr : list string;
  (** Commands handed to [subprocess.run], oldest first. *)
  spawned : list (list string);
  (** Temporary files created, oldest first. *)
  tempfiles : list string
}.

Definition set_fs (f : FS) (w : World) : World :=
  {| fs := f; stdout := stdout w; stderr := stderr w;
     spawned := spawned w; tempfiles := tempfiles w |}.

(** The world after one more line on standard output. *)
Definition said (w : World) (line : string) : World :=
  {| fs := fs w; stdout := stdout w ++ [line]; stderr := stderr w;
     spawned := spawned w; tempfiles := tempfiles w |}.

(** *** The monad of the effectful code *)

Definition M (A : Type) : Type := World -> result A * World.

Definition ret {A} (a : A) : M A := fun w => (Ok a, w).

Definition raise {A} (e : exn) : M A := fun w => (Raise e, w).

Definition bind {A B} (m : M A) (k : A -> M B) : M B :=
  fun w =>
    match m w with
    | (Ok a, w') => k a w'
    | (Raise e, w') => (Raise e, w')
    end.

Definition lift {A} (r : result A) : M A := fun w => (r, w).

Declare Scope m_scope.
Delimit Scope m_scope with M.
Notation "x <- m ;; k" := (bind m (fun x => k))
  (at level 100, m at next level, right associativity) : m_scope.
Notation "m ;;; k" := (bind m (fun _ => k))
  (at level 100, right associativity) : m_scope.
Local Open Scope m_scope.

(** [try: body finally: fin]: [fin] runs on every exit of [body]; the
    outcome is the one of [body] unless [fin] raises. *)
Definition try_finally {A} (body : M A) (fin : M unit) : M A :=
  fun w =>
    match body w with
    | (r, w1) =>
        match fin w1 with
        | (Ok _, w2) => (r, w2)
        | (Raise e, w2) => (Raise e, w2)
        end
    end.

(** [try: body except Exception: pass] *)
Definition except_Exception_pass (body : M unit) : M unit :=
  fun w =>
    match body w with
    | (Raise e, w1) => if is_Exception e then (Ok tt, w1) else (Raise e, w1)
    | (Ok u, w1) => (Ok u, w1)
    end.

Definition print (line : string) : M unit :=
  fun w => (Ok tt,
            {| fs := fs w; stdout := stdout w ++ [line]; stderr := stderr w;
               spawned := spawned w; tempfiles := tempfiles w |}).

Definition eprint (line : string) : M unit :=
  fun w => (Ok tt,
            {| fs := fs w; stdout := stdout w; stderr := stderr w ++ [line];
               spawned := spawned w; tempfiles := tempfiles w |}).

Definition os_path_exists (p : string) : M bool :=
  fun w => (Ok (path_exists (fs w) p), w).

Definition os_path_getsize (p : string) : M N :=
  fun w => (path_getsize (fs w) p, w).

Definition os_remove (env : Env) (p : string) : M unit :=
  fun w =>
    if path_exists (fs w) p then
      if remove_fails env p (fs w) then (Raise OSError, w)
      else (Ok tt, set_fs (delete p (fs w)) w)
    else (Raise FileNotFoundError, w).

Definition subprocess_run (env : Env) (cmd : list string) : M CompletedProcess :=
  fun w =>
    match spawn env cmd (fs w) with
    | (r, fs') =>
        (r, {| fs := fs'; stdout := stdout w; stderr := stderr w;
               spawned := spawned w ++ [cmd]; tempfiles := tempfiles w |})
    end.

Definition get_fs : M FS := fun w => (Ok (fs w), w).

(** ** The program *)

Definition SUPPORTED_EXTENSIONS : gset string :=
  {[ ".mp4"; ".mov"; ".mkv"; ".avi"; ".webm"; ".m4v"; ".ts"; ".mts";
     ".m2ts"; ".3gp" ]}.

Definition is_video_file (fs : FS) (path : string) : bool :=
  if negb (path_isfile fs path) then false
  else
    let ext := snd (Path.splitext path) in
    bool_decide (Str.lower ext ∈ SUPPORTED_EXTENSIONS).

Definition newline : string := String "010"%char EmptyString.

(** The [for] loop of [build_filelist_file]; [buffer] is what has been
    written to [tmp] so far.  The loop stops at the first write that
    raises; the result is that exception, if any, and the text written
    until then. *)
Fixpoint write_paths (env : Env) (tmp cwd : string) (disk : FS)
    (file_paths : list string) (buffer : string) : option exn * string :=
  match file_paths with
  | [] => (None, buffer)
  | p :: rest =>
      let abs_path := Path.abspath cwd p in
      let escaped := Str.replace_char "'" "'\''" abs_path in
      let line := "file '" +:+ escaped +:+ "'" +:+ newline in
      match write_error env tmp buffer line disk with
      | Some e => (Some e, buffer)
      | None => write_paths env tmp cwd disk rest (buffer +:+ line)
      end
  end.

(** [tempfile.NamedTemporaryFile("w", delete=False, dir=..., suffix=...)]:
    an empty file appears under the name picked. *)
Definition named_temporary_file (env : Env) (directory suffix : string) : M string :=
  fun w =>
    match temp_name env directory suffix (fs w) with
    | Ok name =>
        (Ok name,
         {| fs := <[name := File EmptyString]> (fs w);
            stdout := stdout w; stderr := stderr w; spawned := spawned w;
            tempfiles := tempfiles w ++ [name] |})
    | Raise e => (Raise e, w)
    end.

(** [tmp.close()]: what was written reaches the file, unless the flush
    raises. *)
Definition close_file (env : Env) (name buffer : string) : M unit :=
  fun w =>
    match close_error env name buffer (fs w) with
    | None => (Ok tt, set_fs (<[name := File buffer]> (fs w)) w)
    | Some (e, reached) =>
        (Raise e, set_fs (<[name := File reached]> (fs w)) w)
    end.

(** Creating the file may fail; so may any write to it and its closing,
    and then the file stays, for it was made with [delete=False]. *)
Definition build_filelist_file (env : Env) (file_paths : list string)
    (directory : string) : M string :=
  (tmp <- named_temporary_file env directory "_ffconcat.txt" ;;
   fun w =>
     let written :=
       write_paths env tmp (getcwd env) (fs w) file_paths EmptyString in
     try_finally
       (match fst written with
        | Some e => raise e
        | None => ret tmp
        end)
       (close_file env tmp (snd written)) w)%M.

Definition cmd_copy (list_file output : string) : list string :=
  ["ffmpeg"; "-y"; "-hide_banner"; "-loglevel"; "error"; "-f"; "concat";
   "-safe"; "0"; "-i"; list_file; "-c"; "copy"; output].

Definition cmd_reencode (list_file output : string) : list string :=
  ["ffmpeg"; "-y"; "-hide_banner"; "-loglevel"; "error"; "-f"; "concat";
   "-safe"; "0"; "-i"; list_file; "-c:v"; "libx264"; "-preset"; "veryfast";
   "-crf"; "20"; "-c:a"; "aac"; "-b:a"; "192k"; "-movflags"; "+faststart";
   output].

(** [result.returncode == 0 and os.path.exists(output) and
    os.path.getsize(output) > 0], evaluated left to right. *)
Definition attempt_ok (r : CompletedProcess) (output : string) : M bool :=
  (if (returncode r =? 0)%Z then
     e <- os_path_exists output ;;
     if e then (sz <- os_path_getsize output ;; ret (0 <? sz)) else ret false
   else ret false)%M.

(** [a or b] on strings *)
Definition str_or (a b : string) : string :=
  if Str.is_empty a then b else a.

Definition run_ffmpeg_concat (env : Env) (list_file output : string)
    : M (bool * string) :=
  (result1 <- subprocess_run env (cmd_copy list_file output) ;;
   ok1 <- attempt_ok result1 output ;;
   if ok1 then ret (true, "Merged with stream copy.")
   else
     result2 <- subprocess_run env (cmd_reencode list_file output) ;;
     ok2 <- attempt_ok result2 output ;;
     if ok2 then ret (true, "Merged with re-encode.")
     else ret (false,
               str_or (stderr_text result1)
                 (str_or (stderr_text result2) "Unknown error from ffmpeg")))%M.

(** The [try] block of [main]. *)
Definition merge_and_report (env : Env) (list_file output_path : string) : M Z :=
  (r <- run_ffmpeg_concat env list_file output_path ;;
   if fst r then
     print (snd r) ;;;
     print ("Done: " +:+ output_path) ;;;
     ret 0%Z
   else
     eprint "Failed to merge videos." ;;;
     (if negb (Str.is_empty (snd r)) then eprint (snd r) else ret tt) ;;;
     ret 2%Z)%M.

(** The [finally] block of [main]. *)
Definition cleanup (env : Env) (list_file : string) : M unit :=
  except_Exception_pass
    (e <- os_path_exists list_file ;;
     if e then os_remove env list_file else ret tt)%M.

Definition output_name_of (env : Env) (args : Namespace) : string :=
  match output args with
  | Some name =>
      if Str.is_empty name then "merged_" +:+ timestamp env +:+ ".mp4" else name
  | None => "merged_" +:+ timestamp env +:+ ".mp4"
  end.

Fixpoint print_each (l : list string) : M unit :=
  match l with
  | [] => ret tt
  | f :: l' => (print (" - " +:+ f) ;;; print_each l')%M
  end.

Definition main (env : Env) : M Z :=
  match which_ffmpeg env with
  | None =>
      (eprint "Error: ffmpeg is not installed or not in PATH." ;;;
       eprint "Install via Homebrew: brew install ffmpeg" ;;;
       ret 1%Z)%M
  | Some _ =>
      (args <- lift (parsed_args env) ;;
       let cwd := getcwd env in
       disk <- get_fs ;;
       names <- lift (listdir env disk) ;;
       let candidates :=
         List.filter
           (fun f => include_hidden args || negb (Str.startswith "." f)) names in
       let video_files :=
         List.filter (fun f => is_video_file disk (Path.join cwd f)) candidates in
       video_files <- lift (natural_sort video_files) ;;
       if bool_decide (video_files = []) || (length video_files <? 2)%nat then
         print "Found fewer than 2 video files to merge. Nothing to do." ;;;
         ret 0%Z
       else
         let output_name := output_name_of env args in
         let output_path := Path.abspath cwd (Path.join cwd output_name) in
         let video_files :=
           List.filter
             (fun f =>
                negb (String.eqb (Path.abspath cwd (Path.join cwd f)) output_path))
             video_files in
         if (length video_files <? 2)%nat then
           print "After filtering, fewer than 2 inputs remain. Nothing to do." ;;;
           ret 0%Z
         else
           print "Merging the following files in order:" ;;;
           print_each video_files ;;;
           list_file <-
             build_filelist_file env (map (Path.join cwd) video_files) cwd ;;
           try_finally (merge_and_report env list_file output_path)
                       (cleanup env list_file))%M
  end.

(** *** The two halves of [main]

    [select_inputs] is [main] up to the second count check, returning
    either the exit code of an early [return] or the inputs and the
    output path of the merge; [merge_selected] is the rest.  Lemma
    [main_stages] shows that [main] is the one followed by the other. *)

Inductive plan : Type :=
| Exit (code : Z)
| Merge (video_files : list string) (output_path : string).

Definition visible (args : Namespace) (f : string) : bool :=
  include_hidden args || negb (Str.startswith "." f).

(** The entries of the directory that pass the hidden-file filter and
    the classifier, in listing order. *)
Definition qualifying (env : Env) (args : Namespace) (disk : FS)
    (names : list string) : list string :=
  List.filter (fun f => is_video_file disk (Path.join (getcwd env) f))
    (List.filter (visible args) names).

Definition resolved_output (env : Env) (args : Namespace) : string :=
  Path.abspath (getcwd env) (Path.join (getcwd env) (output_name_of env args)).

Definition exclude_output (env : Env) (output_path : string)
    (video_files : list string) : list string :=
  List.filter
    (fun f =>
       negb (String.eqb
               (Path.abspath (getcwd env) (Path.join (getcwd env) f))
               output_path))
    video_files.

Definition select_inputs (env : Env) : M plan :=
  match which_ffmpeg env with
  | None =>
      (eprint "Error: ffmpeg is not installed or not in PATH." ;;;
       eprint "Install via Homebrew: brew install ffmpeg" ;;;
       ret (Exit 1%Z))%M
  | Some _ =>
      (args <- lift (parsed_args env) ;;
       disk <- get_fs ;;
       names <- lift (listdir env disk) ;;
       video_files <- lift (natural_sort (qualifying env args disk names)) ;;
       if bool_decide (video_files = []) || (length video_files <? 2)%nat then
         print "Found fewer than 2 video files to merge. Nothing to do." ;;;
         ret (Exit 0%Z)
       else
         let output_path := resolved_output env args in
         let video_files := exclude_output env output_path video_files in
         if (length video_files <? 2)%nat then
           print "After filtering, fewer than 2 inputs remain. Nothing to do." ;;;
           ret (Exit 0%Z)
         else ret (Merge video_files output_path))%M
  end.

Definition merge_selected (env : Env) (video_files : list string)
    (output_path : string) : M Z :=
  (print "Merging the following files in order:" ;;;
   print_each video_files ;;;
   list_file <-
     build_filelist_file env (map (Path.join (getcwd env)) video_files)
       (getcwd env) ;;
   try_finally (merge_and_report env list_file output_path)
               (cleanup env list_file))%M.

Definition run_plan (env : Env) (p : plan) : M Z :=
  match p with
  | Exit code => ret code
  | Merge video_files output_path => merge_selected env video_files output_path
  end.

(** ** Vocabulary of the specification *)

Definition node_size (n : node) : N :=
  match n with
  | File c => N.of_nat (String.length c)
  | Dir n | Special n => n
  end.

(** The success criterion of an attempt: exit status zero, and the
    output path exists, and its size is greater than zero. *)
Definition attempt_succeeds (r : CompletedProcess) (output : string)
    (disk : FS) : bool :=
  (returncode r =? 0)%Z
  && match disk !! output with
     | Some n => 0 <? node_size n
     | None => false
     end.

(** The output path exists with a size above zero. *)
Definition attempt_succeeds_on_disk (output : string) (disk : FS) : Prop :=
  ∃ n, disk !! output = Some n ∧ 0 < node_size n.

(** The world after a call of [subprocess.run] that left the file
    system as [disk]. *)
Definition after_spawn (w : World) (cmds : list (list string)) (disk : FS) : World :=
  {| fs := disk; stdout := stdout w; stderr := stderr w;
     spawned := spawned w ++ cmds; tempfiles := tempfiles w |}.

(** The diagnostic of a total failure: the first attempt's error text,
    else the second's, else the sentinel. *)
Definition diagnostic (err1 err2 : string) : string :=
  match err1, err2 with
  | String _ _, _ => err1
  | EmptyString, String _ _ => err2
  | EmptyString, EmptyString => "Unknown error from ffmpeg"
  end.

(** The line the manifest holds for an input. *)
Definition manifest_line (cwd p : string) : string :=
  "file '" +:+ Str.replace_char "'" "'\''" (Path.abspath cwd p) +:+ "'" +:+ newline.

(** The escaping rule in the words of the specification: each single
    quote becomes the four characters quote, backslash, quote, quote;
    every other character stays. *)
Definition escape_char (c : ascii) : string :=
  if Ascii.eqb c "'" then "'\''" else String c EmptyString.

Definition escape_quotes (s : string) : string :=
  Str.concat (map escape_char (list_ascii_of_string s)).

(** Reading a token the way the concat format quotes it: between single
    quotes every character is literal up to the closing quote; outside
    them a backslash makes the next character literal.  [None] is an
    unterminated quote (or a dangling backslash). *)
Fixpoint unquote (quoted : bool) (s : string) : option string :=
  match s with
  | EmptyString => if quoted then None else Some EmptyString
  | String c s' =>
      if quoted then
        if Ascii.eqb c "'" then unquote false s'
        else option_map (String c) (unquote true s')
      else if Ascii.eqb c "'" then unquote true s'
      else if Ascii.eqb c "\" then
        match s' with
        | String d s'' => option_map (String d) (unquote false s'')
        | EmptyString => None
        end
      else option_map (String c) (unquote false s')
  end.

(** The part of [merge_selected] before the [try]: announce the inputs
    and build the manifest. *)
Definition create_manifest (env : Env) (video_files : list string) : M string :=
  (print "Merging the following files in order:" ;;;
   print_each video_files ;;;
   build_filelist_file env (map (Path.join (getcwd env)) video_files)
     (getcwd env))%M.

(** A path component as [normpath] leaves it: not empty, not a dot or
    two, and without a slash. *)
Definition no_slash (s : string) : bool :=
  Str.forallb (fun c => negb (Ascii.eqb c "/")) s.

Definition plain_component (s : string) : bool :=
  negb (String.eqb s "") && negb (String.eqb s ".")
  && negb (String.eqb s "..") && no_slash s.

(** The shape of a split name: text, digits, text, ..., text, where a
    text piece has no decimal digit and a digit piece is a non-empty run
    of decimal digits. *)
Definition is_text (t : string) : bool :=
  Str.forallb (fun c => negb (Str.is_decimal c)) t.

Definition is_digits (d : string) : bool :=
  negb (Str.is_empty d) && Str.forallb Str.is_decimal d.

Fixpoint alternating (pieces : list string) : bool :=
  match pieces with
  | [] => false
  | [t] => is_text t
  | t :: [_] => false
  | t :: d :: rest => is_text t && is_digits d && alternating rest
  end.

(** The shape of a key: a [str] first, then [int] and [str] in turn, a
    [str] last. *)
Fixpoint key_shape (k : list key_elem) : bool :=
  match k with
  | [KStr _] => true
  | KStr _ :: KInt _ :: rest => key_shape rest
  | _ => false
  end.

(** The superscript digits: up to U+00FF, the characters that
    [str.isdigit] accepts and [int] rejects. *)
Definition is_superscript (c : ascii) : bool :=
  (Str.code c =? 178) || (Str.code c =? 179) || (Str.code c =? 185).

(** "Not above": the second key is not below the first. *)
Definition key_le (a b : list key_elem) : Prop := key_lt b a = Ok false.

(** A list of keyed items in which no later key is below an earlier one. *)
Definition keys_ascend (kl : list (list key_elem * string)) : Prop :=
  StronglySorted (fun p q => key_le (fst p) (fst q)) kl.

(** A list of names every one of which has a key, with no later key
    below an earlier one. *)
Definition in_natural_order (names : list string) : Prop :=
  ∃ kl, map snd kl = names
        ∧ Forall (fun p => natural_sort_key (snd p) = Ok (fst p)) kl
        ∧ keys_ascend kl.

(** The key read off the pieces of a split name by position: text
    pieces lower-cased, digit pieces by value. *)
Fixpoint positional_key (pieces : list string) : list key_elem :=
  match pieces with
  | [] => []
  | [t] => [KStr (Str.lower t)]
  | t :: d :: rest =>
      KStr (Str.lower t) :: KInt (Str.int_acc 0 d) :: positional_key rest
  end.

(** A text piece that [str.isdigit] accepts: a non-empty run of
    superscript digits. *)
Definition isdigit_text (t : string) : bool := is_text t && Str.isdigit t.

(** Whether a string starts with a decimal digit. *)
Definition starts_with_digit (u : string) : bool :=
  match u with
  | EmptyString => false
  | String c _ => Str.is_decimal c
  end.

(** Reading a manifest back, as the concat format is read: the text is
    cut at newlines, it ends with a newline, and every line is the word
    [file], a blank and a quoted token. *)
Definition no_newline (s : string) : bool :=
  Str.forallb (fun c => negb (Ascii.eqb c "010")) s.

Fixpoint after_prefix (p s : string) : option string :=
  match p, s with
  | EmptyString, _ => Some s
  | String a p', String b s' =>
      if Ascii.eqb a b then after_prefix p' s' else None
  | String _ _, EmptyString => None
  end.

Definition parse_line (line : string) : option string :=
  match after_prefix "file " line with
  | Some token => unquote false token
  | None => None
  end.

Fixpoint parse_lines (lines : list string) : option (list string) :=
  match lines with
  | [] => None
  | [last] => if Str.is_empty last then Some [] else None
  | line :: rest =>
      match parse_line line, parse_lines rest with
      | Some p, Some ps => Some (p :: ps)
      | _, _ => None
      end
  end.

Definition parse_manifest (content : string) : option (list string) :=
  parse_lines (Str.split_char "010" content).

(** The lines of a text in which every line ends with a newline: the
    pieces between the newlines, without the empty piece after the last
    one.  [None] when the text does not end with a newline. *)
Fixpoint complete_lines (pieces : list string) : option (list string) :=
  match pieces with
  | [] => None
  | [last] => if Str.is_empty last then Some [] else None
  | line :: rest => option_map (cons line) (complete_lines rest)
  end.

Definition text_lines (content : string) : option (list string) :=
  complete_lines (Str.split_char "010" content).

(** The world once the builder has made the temporary file [name] and
    left [content] in it. *)
Definition with_manifest (w : World) (name content : string) : World :=
  {| fs := <[name := File content]> (fs w);
     stdout := stdout w; stderr := stderr w; spawned := spawned w;
     tempfiles := tempfiles w ++ [name] |}.

(** What the builder does after it has made the file [name] in the
    world [w]: the exception it ends with, if any, and what the file
    holds when it is closed. *)
Definition writing_outcome (env : Env) (file_paths : list string)
    (name : string) (w : World) : option exn * string :=
  let created := <[name := File EmptyString]> (fs w) in
  let written :=
    write_paths env name (getcwd env) created file_paths EmptyString in
  match close_error env name (snd written) created with
  | Some (e, reached) => (Some e, reached)
  | None => (fst written, snd written)
  end.

(** ** video_2.py: the string work of [VeoVideoGenerator] *)

Module Veo.









(** [s.endswith(suffix)]: some tail of [s] is [suffix]. *)
Fixpoint endswith (suffix s : string) : bool :=
  String.eqb suffix s
  || match s with
     | EmptyString => false
     | String _ s' => endswith suffix s'
     end.

(** [s.replace(old, new)] for a non-empty [old], the only kind the
    program uses: matches are taken from the left and do not overlap.
    [skip] counts the characters of a match still to be passed over. *)
Fixpoint replace_go (old new : string) (skip : nat) (s : string) : string :=
  match s with
  | EmptyString => EmptyString
  | String c s' =>
      match skip with
      | S k => replace_go old new k s'
      | O =>
          if Str.startswith old s
          then new +:+ replace_go old new (String.length old - 1) s'
          else String c (replace_go old new 0 s')
      end
  end.

Definition replace (old new s : string) : string := replace_go old new 0 s.

Definition google_files : string := "https://generativelanguage.googleapis.com/".

(** The address [download_video] fetches, from the generator's
    [base_url] and the URI the service returned. *)
Definition download_url (base_url video_uri : string) : string :=
  let relative_path :=
    if Str.startswith google_files video_uri
    then replace google_files "" video_uri
    else video_uri in
  let base_path :=
    if endswith "/v1beta" base_url
    then replace "/v1beta" "/download" base_url
    else base_url in
  base_path +:+ "/" +:+ relative_path.

(** Whether [old] occurs in [s]. *)
Fixpoint occurs (old s : string) : bool :=
  Str.startswith old s
  || match s with
     | EmptyString => false
     | String _ s' => occurs old s'
     end.

End Veo.


(** ** Sample directories and transcoders *)

Module Demo.

Fixpoint strip_prefix (p s : string) : option string :=
  match p, s with
  | EmptyString, _ => Some s
  | String a p', String b s' =>
      if Ascii.eqb a b then strip_prefix p' s' else None
  | String _ _, EmptyString => None
  end.

(** The directory listing read off the file system: the names under
    ["/d/"]. *)
Definition listing (disk : FS) : result (list string) :=
  Ok (omap (fun kv => strip_prefix "/d/" (fst kv)) (map_to_list disk)).

(** A transcoder that writes its last argument and exits with 0. *)
Definition ffmpeg_ok (cmd : list string) (disk : FS)
    : result CompletedProcess * FS :=
  (Ok {| returncode := 0; stdout_text := ""; stderr_text := "" |},
   match last cmd with
   | Some out => <[out := File "merged video"]> disk
   | None => disk
   end).

(** A transcoder that fails with an error text. *)
Definition ffmpeg_fail (text : string) (cmd : list string) (disk : FS)
    : result CompletedProcess * FS :=
  (Ok {| returncode := 1; stdout_text := ""; stderr_text := text |}, disk).

(** A transcoder that cannot stream-copy but can re-encode. *)
Definition ffmpeg_reencode_only (cmd : list string) (disk : FS)
    : result CompletedProcess * FS :=
  if bool_decide ("copy" ∈ cmd) then ffmpeg_fail "codec mismatch" cmd disk
  else ffmpeg_ok cmd disk.

Definition env (out : option string)
    (transcoder : list string → FS → result CompletedProcess * FS)
    (stuck : bool) : Env :=
  {| which_ffmpeg := Some "/usr/bin/ffmpeg";
     parsed_args := Ok {| output := out; include_hidden := false |};
     getcwd := "/d";
     listdir := listing;
     timestamp := "20240101_120000";
     temp_name := fun dir suffix _ => Ok (dir +:+ "/tmpab12" +:+ suffix);
     spawn := transcoder;
     remove_fails := fun _ _ => stuck;
     write_error := fun _ _ _ _ => None;
     close_error := fun _ _ _ => None |}.

(** The same surroundings, except that every write to the temporary
    file raises [ValueError], as the [UnicodeEncodeError] of a line that
    the encoding of the file cannot write is. *)
Definition failing_write (e : Env) : Env :=
  {| which_ffmpeg := which_ffmpeg e;
     parsed_args := parsed_args e;
     getcwd := getcwd e;
     listdir := listdir e;
     timestamp := timestamp e;
     temp_name := temp_name e;
     spawn := spawn e;
     remove_fails := remove_fails e;
     write_error := fun _ _ _ _ => Some ValueError;
     close_error := close_error e |}.

(** The same surroundings, except that closing the temporary file
    raises [OSError] and nothing reaches the file: the disk is full. *)
Definition failing_close (e : Env) : Env :=
  {| which_ffmpeg := which_ffmpeg e;
     parsed_args := parsed_args e;
     getcwd := getcwd e;
     listdir := listdir e;
     timestamp := timestamp e;
     temp_name := temp_name e;
     spawn := spawn e;
     remove_fails := remove_fails e;
     write_error := write_error e;
     close_error := fun _ _ _ => Some (OSError, EmptyString) |}.

Definition world (disk : FS) : World :=
  {| fs := disk; stdout := []; stderr := []; spawned := []; tempfiles := [] |}.

Definition clips : FS :=
  <["/d/clip2.mp4" := File "two"]>
    (<["/d/clip10.mp4" := File "ten"]>
       (<["/d/clip1.mp4" := File "one"]>
          (<["/d/notes.txt" := File "text"]>
             (<["/d/sub.mp4" := Dir 4096]> ∅)))).

(** U+00B2, superscript two *)
Definition sup2 : ascii := "178"%char.

Definition superscript_name : string := String sup2 "1.mp4".

Definition one_superscript_clip : FS :=
  <["/d/" +:+ superscript_name := File "clip"]> ∅.

End Demo.

(** * Properties *)

Example split_ex1 : re_split_digits "a12b3" = ["a"; "12"; "b"; "3"; ""].
Proof. reflexivity. Qed.

Example split_ex2 : re_split_digits "12" = [""; "12"; ""].
Proof. reflexivity. Qed.

Example sort_ex1 :
  natural_sort ["clip2.mp4"; "clip10.mp4"; "clip1.mp4"]
  = Ok ["clip1.mp4"; "clip2.mp4"; "clip10.mp4"].
Proof. vm_compute. reflexivity. Qed.

Example key_sup2 : natural_sort_key (String "178"%char "1.mp4") = Raise ValueError.
Proof. vm_compute. reflexivity. Qed.

(** ** The Merge Executor *)

Lemma attempt_succeeds_iff r output disk :
  attempt_succeeds r output disk = true ↔
  returncode r = 0%Z ∧ ∃ n, disk !! output = Some n ∧ 0 < node_size n.
Proof.
  unfold attempt_succeeds. rewrite andb_true_iff, Z.eqb_eq. split.
  - intros [Hrc Hsz]. split; [exact Hrc|].
    destruct (disk !! output) as [n|]; [|discriminate].
    exists n. split; [reflexivity|]. by apply N.ltb_lt.
  - intros [Hrc (n & Hn & Hsz)]. split; [exact Hrc|].
    rewrite Hn. by apply N.ltb_lt.
Qed.

Lemma attempt_ok_eval r output w :
  attempt_ok r output w = (Ok (attempt_succeeds r output (fs w)), w).
Proof.
  unfold attempt_ok, attempt_succeeds.
  destruct (returncode r =? 0)%Z; [|reflexivity].
  unfold bind, os_path_exists, path_exists, os_path_getsize, path_getsize, ret.
  cbv beta. destruct (fs w !! output) as [[c|n|n]|] eqn:E; rewrite ?E; reflexivity.
Qed.

Lemma subprocess_run_eval env cmd w :
  subprocess_run env cmd w
  = (fst (spawn env cmd (fs w)), after_spawn w [cmd] (snd (spawn env cmd (fs w)))).
Proof.
  unfold subprocess_run, after_spawn. by destruct (spawn env cmd (fs w)).
Qed.

Lemma fs_after_spawn w cmds disk : fs (after_spawn w cmds disk) = disk.
Proof. reflexivity. Qed.

Lemma after_spawn_twice w c1 c2 d1 d2 :
  after_spawn (after_spawn w [c1] d1) [c2] d2 = after_spawn w [c1; c2] d2.
Proof. unfold after_spawn. simpl. by rewrite <- app_assoc. Qed.


(** A transcoder that cannot stream-copy: the executor falls through to
    the re-encode and says so. *)
Example reencode_fallback :
  run_ffmpeg_concat (Demo.env None Demo.ffmpeg_reencode_only false)
    "/d/list.txt" "/d/out.mp4" (Demo.world Demo.clips)
  = (Ok (true, "Merged with re-encode."),
     after_spawn (Demo.world Demo.clips)
       [cmd_copy "/d/list.txt" "/d/out.mp4";
        cmd_reencode "/d/list.txt" "/d/out.mp4"]
       (<["/d/out.mp4" := File "merged video"]> Demo.clips)).
Proof. reflexivity. Qed.

Lemma str_or_diagnostic err1 err2 :
  str_or err1 (str_or err2 "Unknown error from ffmpeg") = diagnostic err1 err2.
Proof. by destruct err1, err2. Qed.

(** Both processes complete and neither passes: the result and the
    world. *)
Lemma run_ffmpeg_concat_both_fail env list_file output w
    result1 disk1 result2 disk2 :
  spawn env (cmd_copy list_file output) (fs w) = (Ok result1, disk1) →
  attempt_succeeds result1 output disk1 = false →
  spawn env (cmd_reencode list_file output) disk1 = (Ok result2, disk2) →
  attempt_succeeds result2 output disk2 = false →
  run_ffmpeg_concat env list_file output w
  = (Ok (false,
         str_or (stderr_text result1)
           (str_or (stderr_text result2) "Unknown error from ffmpeg")),
     after_spawn w [cmd_copy list_file output; cmd_reencode list_file output]
       disk2).
Proof.
  intros H1 Hf1 H2 Hf2.
  unfold run_ffmpeg_concat, bind.
  rewrite subprocess_run_eval, H1. cbn [fst snd].
  rewrite attempt_ok_eval, fs_after_spawn, Hf1.
  rewrite subprocess_run_eval, fs_after_spawn, H2. cbn [fst snd].
  rewrite attempt_ok_eval, fs_after_spawn, Hf2, after_spawn_twice.
  reflexivity.
Qed.

(** C7.  When both processes complete and neither meets the success
    criterion, the executor returns failure with the first attempt's error
    output if it is not empty, else the second's if that is not empty,
    else the text "Unknown error from ffmpeg". *)
Theorem C7_failure_diagnostic (env : Env) (list_file output : string) (w : World)
    (result1 result2 : CompletedProcess) (disk1 disk2 : FS) :
  spawn env (cmd_copy list_file output) (fs w) = (Ok result1, disk1) →
  attempt_succeeds result1 output disk1 = false →
  spawn env (cmd_reencode list_file output) disk1 = (Ok result2, disk2) →
  attempt_succeeds result2 output disk2 = false →
  fst (run_ffmpeg_concat env list_file output w)
  = Ok (false,
        if negb (Str.is_empty (stderr_text result1)) then stderr_text result1
        else if negb (Str.is_empty (stderr_text result2)) then stderr_text result2
        else "Unknown error from ffmpeg").
Proof.
  intros H1 Hf1 H2 Hf2.
  rewrite (run_ffmpeg_concat_both_fail env list_file output w
             result1 disk1 result2 disk2 H1 Hf1 H2 Hf2).
  cbn [fst]. unfold str_or.
  by destruct (stderr_text result1), (stderr_text result2).
Qed.

(** ** The Orchestrator *)

Lemma main_stages env w :
  main env w = bind (select_inputs env) (run_plan env) w.
Proof.
  unfold main, select_inputs, bind, lift, get_fs, qualifying, visible.
  destruct (which_ffmpeg env); [|reflexivity].
  destruct (parsed_args env) as [args|]; [|reflexivity].
  destruct (listdir env (fs w)) as [names|]; [|reflexivity].
  destruct (natural_sort _) as [video_files|]; [|reflexivity].
  destruct (_ || _); [reflexivity|].
  unfold exclude_output, resolved_output.
  destruct (_ <? _)%nat; reflexivity.
Qed.

Lemma merge_selected_stages env video_files output_path w :
  merge_selected env video_files output_path w
  = bind (create_manifest env video_files)
      (fun list_file =>
         try_finally (merge_and_report env list_file output_path)
                     (cleanup env list_file)) w.
Proof.
  unfold merge_selected, create_manifest, bind.
  destruct (print _ w) as [[[]|] ?]; [|reflexivity].
  destruct (print_each _ _) as [[[]|] ?]; reflexivity.
Qed.

(** The [finally] block never raises, and leaves everything but the
    manifest untouched. *)
Lemma cleanup_eval env list_file w :
  cleanup env list_file w
  = (Ok tt,
     if path_exists (fs w) list_file && negb (remove_fails env list_file (fs w))
     then set_fs (delete list_file (fs w)) w
     else w).
Proof.
  unfold cleanup, except_Exception_pass, bind, os_path_exists, os_remove, ret.
  cbv beta iota.
  destruct (path_exists (fs w) list_file) eqn:E; cbv beta iota; rewrite ?E;
    [|reflexivity].
  destruct (remove_fails env list_file (fs w)); reflexivity.
Qed.

Lemma try_finally_cleanup {A} env list_file (body : M A) w :
  try_finally body (cleanup env list_file) w
  = (fst (body w), snd (cleanup env list_file (snd (body w)))).
Proof.
  unfold try_finally. destruct (body w) as [r w1]. cbn [fst snd].
  rewrite cleanup_eval. reflexivity.
Qed.

Lemma cleanup_removes env list_file w :
  remove_fails env list_file (fs w) = false →
  fs (snd (cleanup env list_file w)) !! list_file = None.
Proof.
  intros Hrm. rewrite cleanup_eval, Hrm. cbn [snd negb].
  rewrite andb_true_r. unfold path_exists.
  destruct (fs w !! list_file) eqn:E.
  - cbn [fs set_fs]. apply lookup_delete_eq.
  - exact E.
Qed.

Lemma merge_and_report_failure env list_file output w result1 disk1 result2 disk2 :
  spawn env (cmd_copy list_file output) (fs w) = (Ok result1, disk1) →
  attempt_succeeds result1 output disk1 = false →
  spawn env (cmd_reencode list_file output) disk1 = (Ok result2, disk2) →
  attempt_succeeds result2 output disk2 = false →
  fst (merge_and_report env list_file output w) = Ok 2%Z ∧
  fs (snd (merge_and_report env list_file output w)) = disk2.
Proof.
  intros H1 Hf1 H2 Hf2.
  unfold merge_and_report, bind.
  rewrite (run_ffmpeg_concat_both_fail env list_file output w
             result1 disk1 result2 disk2 H1 Hf1 H2 Hf2).
  cbn [fst snd]. unfold eprint, ret. cbv beta.
  destruct (negb (Str.is_empty _)); split; reflexivity.
Qed.

(** X19.  Once the builder has returned the manifest, the cleanup runs
    on every exit of the merge: the value returned or the exception
    raised by [main] is the one of the merge step, whether or not the
    deletion works; the manifest is absent from the final file system
    unless the deletion itself failed; and when both attempts fail the
    exit code is 2 and, the deletion not failing, the manifest is gone. *)
Theorem X19_manifest_removed_once_built (env : Env) (w w1 w2 : World)
    (video_files : list string) (output_path list_file : string) :
  select_inputs env w = (Ok (Merge video_files output_path), w1) →
  create_manifest env video_files w1 = (Ok list_file, w2) →
  let merge := merge_and_report env list_file output_path w2 in
  let final := main env w in
  fst final = fst merge
  ∧ snd final = snd (cleanup env list_file (snd merge))
  ∧ (remove_fails env list_file (fs (snd merge)) = false →
     fs (snd final) !! list_file = None)
  ∧ (fs (snd final) !! list_file ≠ None →
     remove_fails env list_file (fs (snd merge)) = true ∧
     snd final = snd merge)
  ∧ (∀ result1 disk1 result2 disk2,
       spawn env (cmd_copy list_file output_path) (fs w2) = (Ok result1, disk1) →
       attempt_succeeds result1 output_path disk1 = false →
       spawn env (cmd_reencode list_file output_path) disk1 = (Ok result2, disk2) →
       attempt_succeeds result2 output_path disk2 = false →
       fst final = Ok 2%Z ∧
       (remove_fails env list_file disk2 = false →
        fs (snd final) !! list_file = None)).
Proof.
  intros Hsel Hman merge final.
  assert (Hfinal : final = (fst merge, snd (cleanup env list_file (snd merge)))).
  { unfold final. rewrite main_stages. unfold bind at 1. rewrite Hsel.
    cbn [run_plan]. rewrite merge_selected_stages. unfold bind at 1.
    rewrite Hman. apply try_finally_cleanup. }
  rewrite Hfinal. cbn [fst snd].
  split; [reflexivity|]. split; [reflexivity|].
  split; [apply cleanup_removes|]. split.
  - intros Hstill.
    destruct (remove_fails env list_file (fs (snd merge))) eqn:Hrm.
    + split; [reflexivity|]. rewrite cleanup_eval, Hrm.
      cbn [negb snd]. by rewrite andb_false_r.
    + exfalso. apply Hstill. by apply cleanup_removes.
  - intros result1 disk1 result2 disk2 H1 Hf1 H2 Hf2.
    destruct (merge_and_report_failure env list_file output_path w2
                result1 disk1 result2 disk2 H1 Hf1 H2 Hf2) as [Hcode Hdisk].
    fold merge in Hcode, Hdisk. split; [exact Hcode|].
    intros Hrm. apply cleanup_removes. by rewrite Hdisk.
Qed.

Lemma C7_failure_diagnostic_witness :
  fst (run_ffmpeg_concat (Demo.env None (Demo.ffmpeg_fail "boom") false)
         "/d/list.txt" "/d/out.mp4" (Demo.world Demo.clips))
  = Ok (false, "boom").
Proof.
  apply (C7_failure_diagnostic (Demo.env None (Demo.ffmpeg_fail "boom") false)
           "/d/list.txt" "/d/out.mp4" (Demo.world Demo.clips)
           {| returncode := 1; stdout_text := ""; stderr_text := "boom" |}
           {| returncode := 1; stdout_text := ""; stderr_text := "boom" |}
           Demo.clips Demo.clips);
    reflexivity.
Defined.

Lemma X19_manifest_removed_once_built_witness :
  let env := Demo.env (Some "out.mp4") (Demo.ffmpeg_fail "boom") false in
  let w := Demo.world Demo.clips in
  fst (main env w) = Ok 2%Z
  ∧ fs (snd (main env w)) !! "/d/tmpab12_ffconcat.txt" = None
  ∧ tempfiles (snd (main env w)) = ["/d/tmpab12_ffconcat.txt"].
Proof.
  intros env w.
  pose (vf := ["clip1.mp4"; "clip2.mp4"; "clip10.mp4"]).
  pose (w2 := snd (create_manifest env vf w)).
  destruct (X19_manifest_removed_once_built env w w w2 vf
              "/d/out.mp4" "/d/tmpab12_ffconcat.txt")
    as (_ & _ & _ & _ & Hfail);
    [reflexivity | reflexivity |].
  destruct (Hfail {| returncode := 1; stdout_text := ""; stderr_text := "boom" |}
              (fs w2)
              {| returncode := 1; stdout_text := ""; stderr_text := "boom" |}
              (fs w2)) as [Hcode Hgone];
    [reflexivity ..|].
  split; [exact Hcode|]. split; [apply Hgone; reflexivity|].
  vm_compute. reflexivity.
Defined.

(** ** Sorting *)

Section SortFacts.
Context {A K : Type} (lt : K → K → result bool).

Lemma insert_keyed_perm (x : K * A) l r :
  insert_keyed lt x l = Ok r → Permutation r (x :: l).
Proof.
  revert r. induction l as [|y l IH]; intros r; cbn [insert_keyed].
  - intros [= <-]. reflexivity.
  - destruct (lt (fst y) (fst x)) as [[]|]; cbn [rbind]; try discriminate.
    + destruct (insert_keyed lt x l) as [r'|]; cbn [rbind]; [|discriminate].
      intros [= <-]. rewrite (IH r' eq_refl). apply perm_swap.
    + intros [= <-]. reflexivity.
Qed.

Lemma sort_keyed_perm (l r : list (K * A)) :
  sort_keyed lt l = Ok r → Permutation r l.
Proof.
  revert r. induction l as [|x l IH]; intros r; cbn [sort_keyed].
  - intros [= <-]. reflexivity.
  - destruct (sort_keyed lt l) as [s|]; cbn [rbind]; [|discriminate].
    intros Hins. rewrite (insert_keyed_perm _ _ _ Hins).
    constructor. by apply IH.
Qed.

Lemma keyed_items (key : A → result K) (l : list A) kl :
  rmap_list (fun x => rbind (key x) (fun k => Ok (k, x))) l = Ok kl →
  map snd kl = l.
Proof.
  revert kl. induction l as [|x l IH]; intros kl; cbn [rmap_list].
  - intros [= <-]. reflexivity.
  - destruct (key x) as [k|]; cbn [rbind]; [|discriminate].
    destruct (rmap_list _ l) as [kl'|]; cbn [rbind]; [|discriminate].
    intros [= <-]. cbn. f_equal. by apply IH.
Qed.

(** A sort that returns gives a rearrangement of its input. *)
Lemma sort_by_key_perm (key : A → result K) (l sorted : list A) :
  sort_by_key key lt l = Ok sorted → Permutation sorted l.
Proof.
  unfold sort_by_key.
  destruct (rmap_list _ l) as [kl|] eqn:Hkeys; cbn [rbind]; [|discriminate].
  destruct (sort_keyed lt kl) as [s|] eqn:Hsort; cbn [rbind]; [|discriminate].
  intros [= <-]. rewrite <- (keyed_items key l kl Hkeys).
  apply Permutation_map. by apply sort_keyed_perm.
Qed.

(** The keys are computed before anything is compared: one item whose
    key raises makes the whole sort raise, whatever the length. *)
Lemma sort_by_key_raises (key : A → result K) (l : list A) x e :
  x ∈ l → key x = Raise e → ∃ e', sort_by_key key lt l = Raise e'.
Proof.
  intros Hin Hkey. unfold sort_by_key.
  assert (∃ e', rmap_list (fun x => rbind (key x) (fun k => Ok (k, x))) l
                = Raise e') as [e' ->]; [|by exists e'].
  induction l as [|y l IH]; [by apply elem_of_nil in Hin|].
  cbn [rmap_list]. apply elem_of_cons in Hin as [<-|Hin].
  - rewrite Hkey. by exists e.
  - destruct (key y); cbn [rbind]; [|by eexists].
    destruct (IH Hin) as [e' ->]. by exists e'.
Qed.
End SortFacts.

Lemma natural_sort_length l sorted :
  natural_sort l = Ok sorted → length sorted = length l.
Proof. intros H. apply Permutation_length. by eapply sort_by_key_perm. Qed.

(** ** The count checks *)

(** With the tool found and the directory scanned and sorted, fewer than
    two files after classification end the run with code 0 and one line
    of output; nothing else in the world changes. *)
Lemma few_after_classification env w args names video_files :
  which_ffmpeg env ≠ None →
  parsed_args env = Ok args →
  listdir env (fs w) = Ok names →
  natural_sort (qualifying env args (fs w) names) = Ok video_files →
  (length video_files < 2)%nat →
  main env w
  = (Ok 0%Z, said w "Found fewer than 2 video files to merge. Nothing to do.").
Proof.
  intros Hwhich Hargs Hls Hsort Hlen.
  rewrite main_stages. unfold select_inputs.
  destruct (which_ffmpeg env); [|done].
  unfold bind, lift, get_fs.
  rewrite Hargs. cbv beta iota. rewrite Hls. cbv beta iota. rewrite Hsort.
  apply Nat.ltb_lt in Hlen. rewrite Hlen, orb_true_r. reflexivity.
Qed.

(** The same when the count falls below two only once the output path
    has been taken out. *)
Lemma few_after_exclusion env w args names video_files :
  which_ffmpeg env ≠ None →
  parsed_args env = Ok args →
  listdir env (fs w) = Ok names →
  natural_sort (qualifying env args (fs w) names) = Ok video_files →
  (2 ≤ length video_files)%nat →
  (length (exclude_output env (resolved_output env args) video_files) < 2)%nat →
  main env w
  = (Ok 0%Z, said w "After filtering, fewer than 2 inputs remain. Nothing to do.").
Proof.
  intros Hwhich Hargs Hls Hsort Hlen Hex.
  rewrite main_stages. unfold select_inputs.
  destruct (which_ffmpeg env); [|done].
  unfold bind, lift, get_fs.
  rewrite Hargs. cbv beta iota. rewrite Hls. cbv beta iota. rewrite Hsort.
  assert (bool_decide (video_files = []) = false) as ->.
  { apply bool_decide_eq_false. intros ->. cbn in Hlen. lia. }
  assert ((length video_files <? 2)%nat = false) as ->
    by (apply Nat.ltb_ge; lia).
  cbn [orb]. apply Nat.ltb_lt in Hex. rewrite Hex. reflexivity.
Qed.

(** A stage that stops early creates no manifest and starts no process. *)
Lemma select_inputs_quiet env w :
  fs (snd (select_inputs env w)) = fs w
  ∧ spawned (snd (select_inputs env w)) = spawned w
  ∧ tempfiles (snd (select_inputs env w)) = tempfiles w.
Proof.
  unfold select_inputs, bind, lift, get_fs.
  destruct (which_ffmpeg env); [|done].
  destruct (parsed_args env) as [args|]; [|done].
  destruct (listdir env (fs w)) as [names|]; [|done].
  destruct (natural_sort _) as [video_files|]; [|done].
  destruct (_ || _); [done|].
  destruct (_ <? _)%nat; done.
Qed.

(** C8, at an input where the code departs from it.  A directory whose
    only video is named with a superscript two followed by "1.mp4" has
    one qualifying input, yet [main] ends with [ValueError] raised while
    sorting, not with exit code 0 and the nothing-to-do line. *)
Theorem C8_single_superscript_clip_raises :
  let env := Demo.env None Demo.ffmpeg_ok false in
  let w := Demo.world Demo.one_superscript_clip in
  qualifying env {| output := None; include_hidden := false |} (fs w)
    [Demo.superscript_name] = [Demo.superscript_name]
  ∧ listdir env (fs w) = Ok [Demo.superscript_name]
  ∧ main env w = (Raise ValueError, w).
Proof. vm_compute. repeat split; reflexivity. Qed.

(** ** [normpath] keeps what it has normalised *)

Lemma split_char_no_slash s :
  Forall (fun p => no_slash p = true) (Str.split_char "/" s).
Proof.
  induction s as [|c s IH]; cbn [Str.split_char].
  - by repeat constructor.
  - destruct (Ascii.eqb c "/") eqn:Hc.
    + by constructor.
    + destruct (Str.split_char "/" s) as [|p ps].
      * repeat constructor. unfold no_slash. cbn [Str.forallb]. by rewrite Hc.
      * inversion IH as [|? ? Hp Hps]; subst. constructor; [|exact Hps].
        unfold no_slash in *. cbn [Str.forallb]. by rewrite Hc, Hp.
Qed.

Lemma split_char_other c t :
  Ascii.eqb c "/" = false →
  Str.split_char "/" (String c t)
  = match Str.split_char "/" t with
    | p :: ps => String c p :: ps
    | [] => [String c EmptyString]
    end.
Proof. intros H. cbn [Str.split_char]. by rewrite H. Qed.

Lemma no_slash_cons c s :
  no_slash (String c s) = true → Ascii.eqb c "/" = false ∧ no_slash s = true.
Proof.
  unfold no_slash. cbn [Str.forallb].
  intros [Hc Hs]%andb_true_iff. by apply negb_true_iff in Hc.
Qed.

Lemma split_char_plain s :
  no_slash s = true → Str.split_char "/" s = [s].
Proof.
  induction s as [|c s IH]; [done|].
  intros [Hc Hs]%no_slash_cons.
  rewrite split_char_other by exact Hc. by rewrite (IH Hs).
Qed.

Lemma split_char_app s t :
  no_slash s = true →
  Str.split_char "/" (s +:+ String "/" t) = s :: Str.split_char "/" t.
Proof.
  induction s as [|c s IH]; [done|].
  intros [Hc Hs]%no_slash_cons.
  change (String c s +:+ String "/" t) with (String c (s +:+ String "/" t)).
  rewrite split_char_other by exact Hc. by rewrite (IH Hs).
Qed.

Lemma split_join_plain l :
  l ≠ [] → Forall (fun p => no_slash p = true) l →
  Str.split_char "/" (Str.join "/" l) = l.
Proof.
  induction l as [|s l IH]; [done|]. intros _ Hall.
  inversion Hall as [|? ? Hs Hl]; subst.
  destruct l as [|s' l].
  - cbn. by apply split_char_plain.
  - change (Str.join "/" (s :: s' :: l))
      with (s +:+ String "/" (Str.join "/" (s' :: l))).
    rewrite split_char_app by exact Hs. f_equal. by apply IH.
Qed.

Lemma plain_component_no_slash c : plain_component c = true → no_slash c = true.
Proof. unfold plain_component. by intros [_ ?]%andb_true_iff. Qed.

Lemma norm_step_plain k acc c :
  plain_component c = true → Path.norm_step k acc c = (acc ++ [c])%list.
Proof.
  unfold plain_component, Path.norm_step.
  intros [[[H1 H2]%andb_true_iff H3]%andb_true_iff _]%andb_true_iff.
  apply negb_true_iff in H1, H2. by rewrite H1, H2, H3.
Qed.

Lemma fold_norm_step_plain k l acc :
  Forall (fun c => plain_component c = true) l →
  fold_left (Path.norm_step k) l acc = (acc ++ l)%list.
Proof.
  revert acc. induction l as [|c l IH]; intros acc Hall; cbn [fold_left].
  - by rewrite app_nil_r.
  - inversion Hall as [|? ? Hc Hl]; subst.
    rewrite norm_step_plain by exact Hc. rewrite (IH _ Hl).
    by rewrite <- app_assoc.
Qed.

Lemma Forall_removelast {A} (P : A → Prop) l : Forall P l → Forall P (removelast l).
Proof.
  induction l as [|x l IH]; [done|]. intros Hall.
  inversion Hall as [|? ? Hx Hl]; subst. cbn [removelast].
  destruct l; [constructor|]. constructor; [exact Hx|by apply IH].
Qed.

Lemma last_plain_not_dotdot acc :
  Forall (fun c => plain_component c = true) acc →
  match last acc with Some l => String.eqb l ".." | None => false end = false.
Proof.
  intros Hall. destruct (last acc) as [l|] eqn:Hlast; [|done].
  apply last_Some in Hlast as [acc' ->].
  apply Forall_app in Hall as [_ Hl]. inversion Hl as [|? ? Hp _]; subst.
  unfold plain_component in Hp.
  apply andb_true_iff in Hp as [[_ Hdd]%andb_true_iff _].
  by apply negb_true_iff in Hdd.
Qed.

(** Under a rooted path the components kept are all plain. *)
Lemma norm_step_keeps_plain k acc c :
  k ≠ 0%nat → no_slash c = true →
  Forall (fun c => plain_component c = true) acc →
  Forall (fun c => plain_component c = true) (Path.norm_step k acc c).
Proof.
  intros Hk Hc Hacc. unfold Path.norm_step.
  destruct (String.eqb c "") eqn:H1; [done|].
  destruct (String.eqb c ".") eqn:H2; [done|]. cbn [orb].
  destruct (String.eqb c "..") eqn:H3; cbn [negb orb].
  - assert ((k =? 0)%nat = false) as -> by by apply Nat.eqb_neq.
    cbn [andb orb]. rewrite (last_plain_not_dotdot acc Hacc).
    by apply Forall_removelast.
  - apply Forall_app. split; [exact Hacc|]. repeat constructor.
    unfold plain_component. by rewrite H1, H2, H3, Hc.
Qed.

Lemma fold_norm_step_keeps_plain k l acc :
  k ≠ 0%nat → Forall (fun c => no_slash c = true) l →
  Forall (fun c => plain_component c = true) acc →
  Forall (fun c => plain_component c = true) (fold_left (Path.norm_step k) l acc).
Proof.
  intros Hk. revert acc. induction l as [|c l IH]; intros acc Hl Hacc; [done|].
  inversion Hl as [|? ? Hc Hl']; subst. cbn [fold_left].
  apply IH; [exact Hl'|]. by apply norm_step_keeps_plain.
Qed.

Lemma join_plain_head l :
  Forall (fun c => plain_component c = true) l →
  l = [] ∨ ∃ a rest, Str.join "/" l = String a rest ∧ Ascii.eqb a "/" = false.
Proof.
  intros Hall. destruct l as [|c l]; [by left|right].
  inversion Hall as [|? ? Hc _]; subst.
  assert (Hns := plain_component_no_slash c Hc).
  unfold plain_component in Hc.
  apply andb_true_iff in Hc as [[[Hne _]%andb_true_iff _]%andb_true_iff _].
  destruct c as [|a c]; [done|]. apply no_slash_cons in Hns as [Ha _].
  exists a. destruct l; eexists; split; try exact Ha; reflexivity.
Qed.

Lemma count_initial_slashes_abs p :
  Path.isabs p = true →
  Path.count_initial_slashes p = 1%nat ∨ Path.count_initial_slashes p = 2%nat.
Proof.
  unfold Path.isabs, Path.count_initial_slashes. intros ->.
  destruct (_ && _); auto.
Qed.

Lemma count_initial_slashes_normal k l :
  k = 1%nat ∨ k = 2%nat →
  Forall (fun c => plain_component c = true) l →
  Path.count_initial_slashes (Path.slashes k +:+ Str.join "/" l) = k.
Proof.
  intros Hk Hall.
  destruct (join_plain_head l Hall) as [->|(a & rest & -> & Ha)].
  - by destruct Hk as [-> | ->].
  - assert (Hs : Ascii.eqb "/" a = false) by (by rewrite Ascii.eqb_sym).
    unfold Path.count_initial_slashes.
    destruct Hk as [-> | ->].
    + change (Path.slashes 1 +:+ String a rest) with (String "/" (String a rest)).
      cbn [Str.startswith]. by rewrite Ascii.eqb_refl, Hs.
    + change (Path.slashes 2 +:+ String a rest)
        with (String "/" (String "/" (String a rest))).
      cbn [Str.startswith]. by rewrite !Ascii.eqb_refl, Hs.
Qed.

Lemma fold_norm_step_empties k n l acc :
  fold_left (Path.norm_step k) (replicate n EmptyString ++ l) acc
  = fold_left (Path.norm_step k) l acc.
Proof. induction n as [|n IH]; [done|]. exact IH. Qed.

Lemma split_slashes k t :
  Str.split_char "/" (Path.slashes k +:+ t)
  = (replicate k EmptyString ++ Str.split_char "/" t)%list.
Proof. induction k as [|k IH]; [done|]. cbn. by rewrite <- IH. Qed.

(** A path of the shape [normpath] gives to rooted paths is left as it
    is. *)
Lemma normpath_normal k l :
  k = 1%nat ∨ k = 2%nat →
  Forall (fun c => plain_component c = true) l →
  Path.normpath (Path.slashes k +:+ Str.join "/" l)
  = Path.slashes k +:+ Str.join "/" l.
Proof.
  intros Hk Hall. unfold Path.normpath.
  assert (Hne : ∀ t, Str.is_empty (Path.slashes k +:+ t) = false)
    by (by destruct Hk as [-> | ->]).
  rewrite Hne, (count_initial_slashes_normal k l Hk Hall).
  rewrite split_slashes, fold_norm_step_empties.
  destruct l as [|c l].
  - cbn. by rewrite Hne.
  - rewrite split_join_plain; [|done|].
    + rewrite fold_norm_step_plain by exact Hall. cbn [app]. by rewrite Hne.
    + eapply Forall_impl; [exact Hall|]. apply plain_component_no_slash.
Qed.

Lemma normpath_abs_shape p :
  Path.isabs p = true →
  ∃ k l, (k = 1%nat ∨ k = 2%nat)
         ∧ Forall (fun c => plain_component c = true) l
         ∧ Path.normpath p = Path.slashes k +:+ Str.join "/" l.
Proof.
  intros Habs. pose proof (count_initial_slashes_abs p Habs) as Hk.
  exists (Path.count_initial_slashes p),
         (fold_left (Path.norm_step (Path.count_initial_slashes p))
            (Str.split_char "/" p) []).
  split; [exact Hk|]. split.
  - apply fold_norm_step_keeps_plain; [lia|apply split_char_no_slash|constructor].
  - unfold Path.normpath. destruct p as [|a p]; [done|]. cbn [Str.is_empty].
    assert (Hne : ∀ t, Str.is_empty
                          (Path.slashes (Path.count_initial_slashes (String a p))
                           +:+ t) = false)
      by (by destruct Hk as [-> | ->]).
    by rewrite Hne.
Qed.

Lemma normpath_idempotent p :
  Path.isabs p = true → Path.normpath (Path.normpath p) = Path.normpath p.
Proof.
  intros Habs. destruct (normpath_abs_shape p Habs) as (k & l & Hk & Hl & ->).
  by apply normpath_normal.
Qed.

Lemma normpath_abs p :
  Path.isabs p = true → Path.isabs (Path.normpath p) = true.
Proof.
  intros Habs. destruct (normpath_abs_shape p Habs) as (k & l & Hk & Hl & ->).
  by destruct Hk as [-> | ->].
Qed.

Lemma join_abs cwd p :
  Path.isabs cwd = true → Path.isabs (Path.join cwd p) = true.
Proof.
  unfold Path.join, Path.isabs. intros Hcwd.
  destruct (Str.startswith "/" p) eqn:Hp; [exact Hp|].
  destruct cwd as [|a cwd]; [done|].
  destruct (_ || _); exact Hcwd.
Qed.

(** With an absolute working directory [abspath] returns an absolute
    path, and leaves its own results unchanged. *)
Lemma abspath_abs cwd p :
  Path.isabs cwd = true → Path.isabs (Path.abspath cwd p) = true.
Proof.
  intros Hcwd. unfold Path.abspath. apply normpath_abs.
  destruct (Path.isabs p) eqn:Hp; [exact Hp|by apply join_abs].
Qed.

Lemma abspath_idempotent cwd p :
  Path.isabs cwd = true →
  Path.abspath cwd (Path.abspath cwd p) = Path.abspath cwd p.
Proof.
  intros Hcwd. pose proof (abspath_abs cwd p Hcwd) as Habs.
  unfold Path.abspath at 1. rewrite Habs. unfold Path.abspath.
  apply normpath_idempotent.
  destruct (Path.isabs p) eqn:Hp; [exact Hp|by apply join_abs].
Qed.

(** ** The output path is not an input *)

Lemma exclude_output_spec env output_path video_files f :
  In f (exclude_output env output_path video_files) →
  In f video_files
  ∧ Path.abspath (getcwd env) (Path.join (getcwd env) f) ≠ output_path.
Proof.
  unfold exclude_output. rewrite filter_In. intros [Hin Hne].
  split; [exact Hin|]. apply negb_true_iff in Hne. by apply String.eqb_neq.
Qed.

Lemma select_inputs_merge env w w1 video_files output_path :
  select_inputs env w = (Ok (Merge video_files output_path), w1) →
  ∃ args sorted,
    parsed_args env = Ok args
    ∧ output_path = resolved_output env args
    ∧ video_files = exclude_output env output_path sorted
    ∧ (2 ≤ length video_files)%nat.
Proof.
  unfold select_inputs.
  destruct (which_ffmpeg env); [|discriminate].
  unfold bind, lift, get_fs.
  destruct (parsed_args env) as [args|]; [|discriminate]. cbv beta iota.
  destruct (listdir env (fs w)) as [names|]; [|discriminate]. cbv beta iota.
  destruct (natural_sort _) as [sorted|]; [|discriminate].
  destruct (_ || _); [discriminate|].
  destruct (_ <? _)%nat eqn:Hlen; [discriminate|].
  intros [= <- <- <-]. exists args, sorted.
  repeat split. by apply Nat.ltb_ge.
Qed.

(** C9.  When [main] goes on to merge, the output path it hands to the
    executor is the resolved output path, and no input it hands to the
    manifest builder has that path as its absolute path; with an absolute
    working directory no input is that path either. *)
Theorem C9_output_never_among_inputs (env : Env) (w w1 : World)
    (video_files : list string) (output_path : string) :
  select_inputs env w = (Ok (Merge video_files output_path), w1) →
  main env w = merge_selected env video_files output_path w1
  ∧ (∃ args, parsed_args env = Ok args
             ∧ output_path = resolved_output env args)
  ∧ ∀ p, In p (map (Path.join (getcwd env)) video_files) →
      Path.abspath (getcwd env) p ≠ output_path
      ∧ (Path.isabs (getcwd env) = true → p ≠ output_path).
Proof.
  intros Hsel. split; [|split].
  - rewrite main_stages. unfold bind. by rewrite Hsel.
  - destruct (select_inputs_merge _ _ _ _ _ Hsel) as (args & ? & ? & ? & _).
    by exists args.
  - destruct (select_inputs_merge _ _ _ _ _ Hsel)
      as (args & sorted & Hargs & Hout & -> & _).
    intros p (f & <- & Hf)%in_map_iff.
    apply exclude_output_spec in Hf as [_ Hne]. split; [exact Hne|].
    intros Hcwd Heq. apply Hne. rewrite Heq, Hout.
    unfold resolved_output. by apply abspath_idempotent.
Qed.

Lemma C9_output_never_among_inputs_witness :
  let env := Demo.env (Some "clip2.mp4") Demo.ffmpeg_ok false in
  let w := Demo.world (<["/d/clip3.mp4" := File "three"]> Demo.clips) in
  main env w
  = merge_selected env ["clip1.mp4"; "clip3.mp4"; "clip10.mp4"] "/d/clip2.mp4" w
  ∧ ∀ p, In p ["/d/clip1.mp4"; "/d/clip3.mp4"; "/d/clip10.mp4"] →
      p ≠ "/d/clip2.mp4".
Proof.
  intros env w.
  destruct (C9_output_never_among_inputs env w w
              ["clip1.mp4"; "clip3.mp4"; "clip10.mp4"] "/d/clip2.mp4")
    as (Hmain & _ & Hnot); [reflexivity|].
  split; [exact Hmain|].
  intros p Hp. apply (Hnot p Hp). reflexivity.
Defined.

(** A second run with the same [--output]: the first run's output, now
    in the directory, is not among the inputs of the second. *)
Example second_run_skips_first_output :
  let env := Demo.env (Some "merged.mp4") Demo.ffmpeg_ok false in
  let after_first := snd (main env (Demo.world Demo.clips)) in
  fst (main env (Demo.world Demo.clips)) = Ok 0%Z
  ∧ path_isfile (fs after_first) "/d/merged.mp4" = true
  ∧ fst (select_inputs env after_first)
    = Ok (Merge ["clip1.mp4"; "clip2.mp4"; "clip10.mp4"] "/d/merged.mp4")
  ∧ fst (main env after_first) = Ok 0%Z.
Proof. vm_compute. repeat split; reflexivity. Qed.

(** ** The Manifest Builder *)

Lemma append_cons (x : ascii) (a b : string) :
  String x a +:+ b = String x (a +:+ b).
Proof. reflexivity. Qed.

Lemma append_assoc (a b c : string) : (a +:+ b) +:+ c = a +:+ (b +:+ c).
Proof. induction a as [|x a IH]; [done|]. by rewrite !append_cons, IH. Qed.

Lemma append_empty_r (a : string) : a +:+ "" = a.
Proof. induction a as [|x a IH]; [done|]. by rewrite append_cons, IH. Qed.

(** When no write raises, the loop has written the lines of the
    inputs, one after the other. *)
Lemma write_paths_ok env tmp cwd disk file_paths buffer :
  fst (write_paths env tmp cwd disk file_paths buffer) = None →
  snd (write_paths env tmp cwd disk file_paths buffer)
  = buffer +:+ Str.concat (map (manifest_line cwd) file_paths).
Proof.
  revert buffer. induction file_paths as [|p rest IH]; intros buffer.
  - intros _. cbn. by rewrite append_empty_r.
  - cbn [write_paths map Str.concat]. cbv zeta.
    destruct (write_error env tmp buffer _ disk); [discriminate|].
    intros Hrest. rewrite (IH _ Hrest). unfold manifest_line.
    by rewrite append_assoc.
Qed.

(** The first write that raises ends the loop with its exception. *)
Lemma write_paths_raises env tmp cwd disk p rest buffer e :
  write_error env tmp buffer (manifest_line cwd p) disk = Some e →
  write_paths env tmp cwd disk (p :: rest) buffer = (Some e, buffer).
Proof.
  intros He. cbn [write_paths]. cbv zeta. unfold manifest_line in He.
  by rewrite He.
Qed.

Lemma replace_quote_escape s :
  Str.replace_char "'" "'\''" s = escape_quotes s.
Proof.
  unfold escape_quotes. induction s as [|c s IH]; [done|].
  cbn [Str.replace_char list_ascii_of_string map Str.concat].
  unfold escape_char at 1. rewrite IH. by destruct (Ascii.eqb c "'").
Qed.

Lemma unquote_escaped s :
  unquote true (Str.replace_char "'" "'\''" s +:+ "'") = Some s.
Proof.
  induction s as [|c s IH]; [done|].
  cbn [Str.replace_char]. destruct (Ascii.eqb c "'") eqn:Hc.
  - apply Ascii.eqb_eq in Hc as ->.
    change (unquote true (("'\''" +:+ Str.replace_char "'" "'\''" s) +:+ "'"))
      with (option_map (String "'")
              (unquote true (Str.replace_char "'" "'\''" s +:+ "'"))).
    by rewrite IH.
  - change (unquote true (String c (Str.replace_char "'" "'\''" s) +:+ "'"))
      with (if Ascii.eqb c "'"
            then unquote false (Str.replace_char "'" "'\''" s +:+ "'")
            else option_map (String c)
                   (unquote true (Str.replace_char "'" "'\''" s +:+ "'"))).
    by rewrite Hc, IH.
Qed.

(** The builder, step by step: no file and no change when the name
    cannot be made; otherwise the file is there whatever happens next,
    and the builder returns its name unless a write or the closing
    raises. *)
Lemma build_filelist_file_eval env file_paths directory w :
  build_filelist_file env file_paths directory w
  = match temp_name env directory "_ffconcat.txt" (fs w) with
    | Ok name =>
        let outcome := writing_outcome env file_paths name w in
        (match fst outcome with
         | Some e => Raise e
         | None => Ok name
         end,
         with_manifest w name (snd outcome))
    | Raise e => (Raise e, w)
    end.
Proof.
  unfold build_filelist_file, bind, named_temporary_file.
  destruct (temp_name env directory "_ffconcat.txt" (fs w)) as [name|e];
    [|reflexivity].
  cbv zeta. unfold writing_outcome, try_finally, close_file, set_fs, with_manifest.
  destruct (fst (write_paths _ _ _ _ _ _)); unfold raise, ret;
    cbn [fs stdout stderr spawned tempfiles];
    destruct (close_error env name _ _) as [[e' reached]|];
    cbn [fst snd]; by rewrite insert_insert_eq.
Qed.

(** When the builder returns, the file it names holds the lines of the
    inputs and nothing else. *)
Lemma build_filelist_file_returns env file_paths directory w name :
  fst (build_filelist_file env file_paths directory w) = Ok name →
  temp_name env directory "_ffconcat.txt" (fs w) = Ok name
  ∧ build_filelist_file env file_paths directory w
    = (Ok name,
       with_manifest w name
         (Str.concat (map (manifest_line (getcwd env)) file_paths))).
Proof.
  rewrite build_filelist_file_eval.
  destruct (temp_name env directory "_ffconcat.txt" (fs w)) as [tmp|e];
    [|discriminate].
  cbv zeta. unfold writing_outcome. cbv zeta.
  destruct (close_error env tmp _ _) as [[e reached]|]; [discriminate|].
  cbn [fst snd].
  destruct (fst (write_paths _ _ _ _ _ _)) eqn:Hw; [discriminate|].
  intros [= ->]. split; [reflexivity|].
  by rewrite (write_paths_ok _ _ _ _ _ _ Hw).
Qed.

(** It returns when the name can be made and neither a write nor the
    closing raises. *)
Lemma build_filelist_file_completes env file_paths directory w name :
  temp_name env directory "_ffconcat.txt" (fs w) = Ok name →
  (∀ buffer line disk, write_error env name buffer line disk = None) →
  (∀ buffer disk, close_error env name buffer disk = None) →
  fst (build_filelist_file env file_paths directory w) = Ok name.
Proof.
  intros Hname Hwrite Hclose. rewrite build_filelist_file_eval, Hname.
  cbv zeta. unfold writing_outcome. cbv zeta. rewrite Hclose. cbn [fst].
  assert (Hloop : ∀ disk buffer,
             fst (write_paths env name (getcwd env) disk file_paths buffer)
             = None).
  { intros disk. induction file_paths as [|p rest IH]; intros buffer;
      [reflexivity|].
    cbn [write_paths]. cbv zeta. rewrite Hwrite. apply IH. }
  by rewrite Hloop.
Qed.

(** When it raises after the name was made, the file is there. *)
Lemma build_filelist_file_raises env file_paths directory w name e :
  temp_name env directory "_ffconcat.txt" (fs w) = Ok name →
  fst (build_filelist_file env file_paths directory w) = Raise e →
  ∃ content,
    snd (build_filelist_file env file_paths directory w)
    = with_manifest w name content.
Proof.
  intros Hname _. rewrite build_filelist_file_eval, Hname. cbv zeta.
  by eexists.
Qed.



(** ** Natural sort keys *)

Lemma alternating_cons2 t d rest :
  alternating (t :: d :: rest) = is_text t && is_digits d && alternating rest.
Proof. destruct rest; [|reflexivity]. cbn. by rewrite !andb_false_r. Qed.

Lemma alternating_head t rest :
  alternating (t :: rest) = true → is_text t = true.
Proof.
  destruct rest as [|d rest]; [done|]. rewrite alternating_cons2.
  by intros [[? _]%andb_true_iff _]%andb_true_iff.
Qed.

(** [re.split] gives text and digit runs in turn. *)
Lemma re_split_digits_alternating s : alternating (re_split_digits s) = true.
Proof.
  induction s as [|c s IH]; [reflexivity|]. cbn [re_split_digits].
  destruct (re_split_digits s) as [|t0 rest]; [discriminate|].
  destruct (Str.is_decimal c) eqn:Hc.
  - destruct t0 as [|a t0].
    + destruct rest as [|d1 rest'].
      * rewrite alternating_cons2. unfold is_digits. cbn. by rewrite Hc.
      * rewrite alternating_cons2 in IH |- *.
        apply andb_true_iff in IH as [[_ Hd]%andb_true_iff Hrest].
        rewrite Hrest, andb_true_r. unfold is_digits in *. cbn.
        apply andb_true_iff in Hd as [_ Hd]. by rewrite Hc, Hd.
    + rewrite alternating_cons2, IH. unfold is_digits. cbn. by rewrite Hc.
  - pose proof (alternating_head _ _ IH) as Ht.
    destruct rest as [|d rest].
    + cbn. unfold is_text in *. cbn. by rewrite Hc.
    + rewrite alternating_cons2 in IH |- *.
      apply andb_true_iff in IH as [[_ Hd]%andb_true_iff Hrest].
      rewrite Hd, Hrest, !andb_true_r. unfold is_text in *. cbn. by rewrite Hc.
Qed.

(** The pieces put together again are the name. *)
Lemma re_split_digits_concat s : Str.concat (re_split_digits s) = s.
Proof.
  induction s as [|c s IH]; [reflexivity|]. cbn [re_split_digits].
  destruct (re_split_digits s) as [|t0 rest]; [by rewrite <- IH|].
  destruct (Str.is_decimal c).
  - destruct t0 as [|a t0]; [destruct rest as [|d1 rest']|];
      cbn [Str.concat] in *; rewrite ?append_cons; cbn; by rewrite <- IH.
  - cbn [Str.concat] in *. by rewrite append_cons, IH.
Qed.

Lemma decimal_isdigit c : Str.is_decimal c = true → Str.char_isdigit c = true.
Proof. unfold Str.char_isdigit. by intros ->. Qed.

Lemma forallb_impl (p q : ascii → bool) s :
  (∀ c, p c = true → q c = true) →
  Str.forallb p s = true → Str.forallb q s = true.
Proof.
  intros Hpq. induction s as [|c s IH]; [done|]. cbn.
  intros [Hc Hs]%andb_true_iff. by rewrite (Hpq c Hc), (IH Hs).
Qed.

(** A digit run becomes an [int]. *)
Lemma key_of_digits d :
  is_digits d = true → key_of_text d = Ok (KInt (Str.int_acc 0 d)).
Proof.
  unfold is_digits, key_of_text, Str.isdigit, Str.int.
  intros [Hne Hall]%andb_true_iff.
  rewrite Hne, Hall, (forallb_impl _ _ d decimal_isdigit Hall). reflexivity.
Qed.

Lemma text_not_all_decimal t :
  is_text t = true → negb (Str.is_empty t) && Str.forallb Str.is_decimal t = false.
Proof.
  destruct t as [|c t]; [done|]. unfold is_text. cbn.
  intros [Hc _]%andb_true_iff. apply negb_true_iff in Hc. by rewrite Hc.
Qed.

(** A text run becomes its lower-cased [str], unless it passes
    [isdigit], and then [int] raises. *)
Lemma key_of_text_run t :
  is_text t = true →
  key_of_text t
  = if Str.isdigit t then Raise ValueError else Ok (KStr (Str.lower t)).
Proof.
  intros Ht. unfold key_of_text, Str.int.
  rewrite (text_not_all_decimal t Ht). by destruct (Str.isdigit t).
Qed.

Lemma key_shape_cons2 s n rest :
  key_shape (KStr s :: KInt n :: rest) = key_shape rest.
Proof. reflexivity. Qed.

Lemma keys_of_alternating pieces k :
  alternating pieces = true →
  rmap_list key_of_text pieces = Ok k → key_shape k = true.
Proof.
  revert k. induction pieces as [pieces IH] using (induction_ltof1 _ (@length _)).
  unfold ltof in IH. intros k Halt.
  destruct pieces as [|t [|d rest]]; [discriminate| |].
  - cbn [alternating] in Halt. cbn [rmap_list rbind].
    rewrite (key_of_text_run t Halt).
    destruct (Str.isdigit t); cbn [rbind]; [discriminate|]. by intros [= <-].
  - rewrite alternating_cons2 in Halt.
    apply andb_true_iff in Halt as [[Ht Hd]%andb_true_iff Hrest].
    cbn [rmap_list]. rewrite (key_of_text_run t Ht), (key_of_digits d Hd).
    destruct (Str.isdigit t); cbn [rbind]; [discriminate|].
    destruct (rmap_list key_of_text rest) as [k'|] eqn:Hk'; cbn [rbind];
      [|discriminate].
    intros [= <-]. rewrite key_shape_cons2.
    apply (IH rest); [cbn; lia | exact Hrest | exact Hk'].
Qed.

(** Every key that is computed holds a [str] at the even positions and
    an [int] at the odd ones. *)
Lemma natural_sort_key_shape s k :
  natural_sort_key s = Ok k → key_shape k = true.
Proof. apply keys_of_alternating, re_split_digits_alternating. Qed.

(** *** The order on keys *)

Lemma elem_eqb_eq x y : elem_eqb x y = true ↔ x = y.
Proof.
  destruct x as [m|s], y as [n|t]; cbn; try (split; discriminate).
  - rewrite N.eqb_eq. split; congruence.
  - rewrite String.eqb_eq. split; congruence.
Qed.

Lemma elem_eqb_refl x : elem_eqb x x = true.
Proof. by apply elem_eqb_eq. Qed.

Lemma string_ltb_lt s t : String.ltb s t = true ↔ String.compare s t = Lt.
Proof. unfold String.ltb. by destruct (String.compare s t). Qed.

Lemma ascii_compare_refl c : Ascii.compare c c = Eq.
Proof. apply N.compare_refl. Qed.

Lemma string_compare_refl s : String.compare s s = Eq.
Proof.
  induction s as [|c s IH]; [done|]. cbn. by rewrite ascii_compare_refl.
Qed.

Lemma string_compare_trans s t u :
  String.compare s t = Lt → String.compare t u = Lt → String.compare s u = Lt.
Proof.
  revert t u. induction s as [|a s IH]; intros [|b t] [|c u]; cbn; try done.
  destruct (Ascii.compare a b) eqn:Hab; try done;
    destruct (Ascii.compare b c) eqn:Hbc; try done.
  - apply Ascii.compare_eq_iff in Hab as ->, Hbc as ->.
    rewrite ascii_compare_refl. apply IH.
  - apply Ascii.compare_eq_iff in Hab as ->. by rewrite Hbc.
  - apply Ascii.compare_eq_iff in Hbc as <-. by rewrite Hab.
  - unfold Ascii.compare in *. rewrite N.compare_lt_iff in Hab, Hbc.
    assert (N_of_ascii a < N_of_ascii c) as Hac by lia.
    apply N.compare_lt_iff in Hac. by rewrite Hac.
Qed.

Lemma string_ltb_trans s t u :
  String.ltb s t = true → String.ltb t u = true → String.ltb s u = true.
Proof. rewrite !string_ltb_lt. apply string_compare_trans. Qed.

Lemma string_ltb_irrefl s : String.ltb s s = false.
Proof. unfold String.ltb. by rewrite string_compare_refl. Qed.

Lemma string_ltb_connected s t :
  String.ltb s t = false → String.ltb t s = false → s = t.
Proof.
  unfold String.ltb. rewrite (String.compare_antisym t s).
  destruct (String.compare s t) eqn:H; cbn; try done.
  intros _ _. by apply String.compare_eq_iff.
Qed.

Lemma elem_lt_trans x y z :
  elem_lt x y = Ok true → elem_lt y z = Ok true → elem_lt x z = Ok true.
Proof.
  destruct x as [m|s], y as [n|t], z as [o|u]; cbn; try done.
  - intros [= H1%N.ltb_lt] [= H2%N.ltb_lt]. f_equal. apply N.ltb_lt. lia.
  - intros [= H1] [= H2]. f_equal. by eapply string_ltb_trans.
Qed.

Lemma elem_lt_irrefl x : elem_lt x x = Ok false.
Proof.
  destruct x as [m|s]; cbn; f_equal;
    [apply N.ltb_irrefl | apply string_ltb_irrefl].
Qed.

Lemma elem_lt_connected x y :
  elem_lt x y = Ok false → elem_lt y x = Ok false → x = y.
Proof.
  destruct x as [m|s], y as [n|t]; cbn; try done.
  - intros [= H1%N.ltb_ge] [= H2%N.ltb_ge]. f_equal. lia.
  - intros [= H1] [= H2]. f_equal. by apply string_ltb_connected.
Qed.

(** No key is below itself. *)
Lemma key_lt_irrefl a : key_lt a a = Ok false.
Proof.
  induction a as [|x a IH]; [done|]. cbn. by rewrite elem_eqb_refl.
Qed.

Lemma key_lt_trans a b c :
  key_lt a b = Ok true → key_lt b c = Ok true → key_lt a c = Ok true.
Proof.
  revert b c. induction a as [|x a IH]; intros [|y b] [|z c]; cbn; try done.
  destruct (elem_eqb x y) eqn:Hxy, (elem_eqb y z) eqn:Hyz.
  - apply elem_eqb_eq in Hxy as ->. rewrite Hyz. apply IH.
  - apply elem_eqb_eq in Hxy as ->. by rewrite Hyz.
  - apply elem_eqb_eq in Hyz as <-. by rewrite Hxy.
  - intros Hlt1 Hlt2. pose proof (elem_lt_trans _ _ _ Hlt1 Hlt2) as Hlt.
    destruct (elem_eqb x z) eqn:Hxz; [|exact Hlt].
    apply elem_eqb_eq in Hxz as ->. by rewrite elem_lt_irrefl in Hlt.
Qed.

(** Two keys neither of which is below the other are the same key. *)
Lemma key_lt_connected a b :
  key_lt a b = Ok false → key_lt b a = Ok false → a = b.
Proof.
  revert b. induction a as [|x a IH]; intros [|y b]; cbn; try done.
  destruct (elem_eqb x y) eqn:Hxy.
  - apply elem_eqb_eq in Hxy as ->. rewrite elem_eqb_refl.
    intros H1 H2. f_equal. by apply IH.
  - assert (elem_eqb y x = false) as ->.
    { destruct (elem_eqb y x) eqn:Hyx; [|done].
      apply elem_eqb_eq in Hyx as ->. by rewrite elem_eqb_refl in Hxy. }
    intros H1 H2. pose proof (elem_lt_connected _ _ H1 H2) as ->.
    by rewrite elem_eqb_refl in Hxy.
Qed.

(** Two keys of the right shape always compare: no [int] meets a [str]. *)
Lemma key_lt_defined a b :
  key_shape a = true → key_shape b = true → ∃ r, key_lt a b = Ok r.
Proof.
  revert b. induction a as [a IH] using (induction_ltof1 _ (@length _)).
  unfold ltof in IH. intros b Ha Hb.
  destruct a as [|[m|s] [|[n|s'] a]]; try discriminate;
    destruct b as [|[o|t] [|[q|t'] b]]; try discriminate.
  - cbn. destruct (String.eqb s t); eauto.
  - cbn. destruct (String.eqb s t); eauto.
  - cbn. destruct (String.eqb s t); eauto.
  - rewrite key_shape_cons2 in Ha, Hb.
    cbn [key_lt elem_eqb elem_lt].
    destruct (String.eqb s t); [|eauto].
    destruct (n =? q); [|eauto].
    apply IH; [cbn; lia | exact Ha | exact Hb].
Qed.

(** *** Which names have a key *)

Lemma re_split_digits_chars (P : ascii → bool) s :
  Str.forallb P s = true →
  Forall (fun t => Str.forallb P t = true) (re_split_digits s).
Proof.
  induction s as [|c s IH]; [by repeat constructor|].
  cbn [Str.forallb]. intros [Hc Hs]%andb_true_iff. specialize (IH Hs).
  cbn [re_split_digits].
  destruct (re_split_digits s) as [|t0 rest].
  - repeat constructor. cbn. by rewrite Hc.
  - inversion IH as [|? ? Ht0 Hrest]; subst.
    assert (Hone : Str.forallb P (String c "") = true) by (cbn; by rewrite Hc).
    destruct (Str.is_decimal c).
    + destruct t0 as [|a t0]; [destruct rest as [|d1 rest']|].
      * by repeat constructor.
      * inversion Hrest as [|? ? Hd1 Hrest']; subst.
        repeat constructor; [|exact Hrest']. cbn. by rewrite Hc, Hd1.
      * by repeat constructor.
    + constructor; [|exact Hrest]. cbn. by rewrite Hc, Ht0.
Qed.

Lemma isdigit_needs_digit_or_superscript t :
  is_text t = true →
  Str.forallb (fun c => negb (is_superscript c)) t = true →
  Str.isdigit t = false.
Proof.
  destruct t as [|c t]; [done|]. unfold is_text, Str.isdigit. cbn.
  intros [Hc _]%andb_true_iff [Hs _]%andb_true_iff.
  apply negb_true_iff in Hc, Hs.
  unfold Str.char_isdigit, is_superscript in *. rewrite Hc.
  cbn [orb] in *. rewrite <- !orb_assoc in Hs. by rewrite <- !orb_assoc, Hs.
Qed.

Lemma keys_of_plain_pieces pieces :
  alternating pieces = true →
  Forall (fun t => Str.forallb (fun c => negb (is_superscript c)) t = true) pieces →
  ∃ k, rmap_list key_of_text pieces = Ok k.
Proof.
  induction pieces as [pieces IH] using (induction_ltof1 _ (@length _)).
  unfold ltof in IH. intros Halt Hall.
  destruct pieces as [|t [|d rest]]; [discriminate| |].
  - cbn [alternating] in Halt. inversion Hall as [|? ? Ht _]; subst.
    cbn [rmap_list]. rewrite (key_of_text_run t Halt).
    rewrite (isdigit_needs_digit_or_superscript t Halt Ht). by eexists.
  - rewrite alternating_cons2 in Halt.
    apply andb_true_iff in Halt as [[Ht Hd]%andb_true_iff Hrest].
    inversion Hall as [|? ? Hst Hall']; subst.
    inversion Hall' as [|? ? _ Hall'']; subst.
    destruct (IH rest) as [k Hk]; [cbn; lia | exact Hrest | exact Hall'' |].
    cbn [rmap_list]. rewrite (key_of_text_run t Ht), (key_of_digits d Hd).
    rewrite (isdigit_needs_digit_or_superscript t Ht Hst). cbn [rbind].
    rewrite Hk. by eexists.
Qed.

(** Among the strings covered here, those up to U+00FF, a name without
    superscript digits, so every ASCII name, has a key.  (Above U+00FF
    there are more characters that [str.isdigit] accepts and [int]
    rejects.) *)
Lemma natural_sort_key_defined s :
  Str.forallb (fun c => negb (is_superscript c)) s = true →
  ∃ k, natural_sort_key s = Ok k ∧ key_shape k = true.
Proof.
  intros Hs.
  destruct (keys_of_plain_pieces (re_split_digits s)) as [k Hk].
  - apply re_split_digits_alternating.
  - by apply re_split_digits_chars.
  - exists k. split; [exact Hk|]. by eapply natural_sort_key_shape.
Qed.

(** *** The order on names that have keys *)

(** On the names whose keys are computed, comparing keys never raises,
    and "the key is below" is a strict weak order: irreflexive,
    transitive, and with a transitive incomparability, which is having
    the same key. *)
Lemma natural_order_on_keyed_names a b c ka kb kc :
  natural_sort_key a = Ok ka →
  natural_sort_key b = Ok kb →
  natural_sort_key c = Ok kc →
  (∃ r, key_lt ka kb = Ok r)
  ∧ key_lt ka ka = Ok false
  ∧ (key_lt ka kb = Ok true → key_lt kb kc = Ok true → key_lt ka kc = Ok true)
  ∧ (key_lt ka kb = Ok false → key_lt kb ka = Ok false →
     key_lt kb kc = Ok false → key_lt kc kb = Ok false →
     key_lt ka kc = Ok false ∧ key_lt kc ka = Ok false).
Proof.
  intros Ha Hb Hc. split; [|split; [|split]].
  - apply key_lt_defined; by eapply natural_sort_key_shape.
  - apply key_lt_irrefl.
  - apply key_lt_trans.
  - intros H1 H2 H3 H4.
    rewrite (key_lt_connected _ _ H1 H2), (key_lt_connected _ _ H3 H4).
    split; apply key_lt_irrefl.
Qed.

(** C3, at an input where the code departs from it.  In the name made
    of a superscript two and "1.mp4" the superscript is a run without a
    decimal digit, a text run; the code does not compare it as text but
    hands it to [int], and the key is a [ValueError]. *)
Theorem C3_superscript_run_not_compared_as_text :
  re_split_digits Demo.superscript_name
  = [String Demo.sup2 ""; "1"; ".mp"; "4"; ""]
  ∧ is_text (String Demo.sup2 "") = true
  ∧ key_of_text (String Demo.sup2 "") = Raise ValueError
  ∧ natural_sort_key Demo.superscript_name = Raise ValueError.
Proof. vm_compute. repeat split; reflexivity. Qed.

(** C4, at an input where the code departs from it.  The name made of a
    superscript two and "1.mp4" has no key, so it cannot be compared with
    any other name, and a sort of a list holding it raises. *)
Theorem C4_no_key_for_superscript_name :
  rbind (natural_sort_key Demo.superscript_name) (fun ka =>
    rbind (natural_sort_key "clip1.mp4") (fun kb => key_lt ka kb))
  = Raise ValueError
  ∧ natural_sort ["clip1.mp4"; Demo.superscript_name] = Raise ValueError
  ∧ ∀ names, Demo.superscript_name ∈ names → ∃ e, natural_sort names = Raise e.
Proof.
  split; [by vm_compute|]. split; [by vm_compute|].
  intros names Hin. eapply sort_by_key_raises; [exact Hin|]. by vm_compute.
Qed.

(** *** How two keys compare *)

Lemma key_lt_prefix a y rest : key_lt a (a ++ y :: rest)%list = Ok true.
Proof.
  induction a as [|x a IH]; [done|]. cbn. by rewrite elem_eqb_refl.
Qed.

Lemma key_lt_common_prefix p a b : key_lt (p ++ a)%list (p ++ b)%list = key_lt a b.
Proof.
  induction p as [|x p IH]; [done|]. cbn. by rewrite elem_eqb_refl.
Qed.

(** A key is below another exactly when it is a proper prefix of it, or
    when, after a common prefix, its next element is the smaller one: an
    [int] below an [int] by value, a [str] below a [str] by code points
    (both lower-cased when the key was made). *)
Lemma key_lt_lexicographic a b :
  key_lt a b = Ok true ↔
  (∃ y rest, b = (a ++ y :: rest)%list)
  ∨ (∃ p x y a' b',
       a = (p ++ x :: a')%list ∧ b = (p ++ y :: b')%list ∧ x ≠ y ∧ elem_lt x y = Ok true).
Proof.
  split.
  - revert b. induction a as [|x a IH]; intros [|y b]; cbn; try done.
    + intros _. left. by exists y, b.
    + destruct (elem_eqb x y) eqn:Hxy.
      * apply elem_eqb_eq in Hxy as ->. intros H.
        destruct (IH b H) as [(y' & rest & ->)|(p & x' & y' & a' & b' & -> & -> & Hne & Hlt)].
        -- left. by exists y', rest.
        -- right. by exists (y :: p), x', y', a', b'.
      * intros Hlt. right. exists [], x, y, a, b. repeat split; [|exact Hlt].
        intros ->. by rewrite elem_eqb_refl in Hxy.
  - intros [(y & rest & ->)|(p & x & y & a' & b' & -> & -> & Hne & Hlt)].
    + apply key_lt_prefix.
    + rewrite key_lt_common_prefix. cbn.
      destruct (elem_eqb x y) eqn:Hxy; [|exact Hlt].
      by apply elem_eqb_eq in Hxy.
Qed.

(** ** [splitext] looks at the last component only *)

Lemma length_append (s t : string) :
  String.length (s +:+ t) = (String.length s + String.length t)%nat.
Proof.
  induction s as [|a s IH]; [done|]. rewrite append_cons. cbn. by rewrite IH.
Qed.

Lemma rfind_go_app c s t i last :
  Path.rfind_go c (s +:+ t) i last
  = Path.rfind_go c t (i + Z.of_nat (String.length s))%Z (Path.rfind_go c s i last).
Proof.
  revert i last. induction s as [|a s IH]; intros i last.
  - change ("" +:+ t) with t. cbn. by rewrite Z.add_0_r.
  - rewrite append_cons. cbn [Path.rfind_go String.length]. rewrite IH.
    f_equal. lia.
Qed.

Lemma rfind_go_absent c s i last :
  Str.forallb (fun a => negb (Ascii.eqb a c)) s = true →
  Path.rfind_go c s i last = last.
Proof.
  revert i last. induction s as [|a s IH]; intros i last; [done|].
  cbn [Str.forallb Path.rfind_go]. intros [Ha Hs]%andb_true_iff.
  apply negb_true_iff in Ha. rewrite Ha. by apply IH.
Qed.

Lemma rfind_go_below c s i last :
  (last < i)%Z →
  (Path.rfind_go c s i last < i + Z.of_nat (String.length s))%Z.
Proof.
  revert i last. induction s as [|a s IH]; intros i last Hlt.
  - cbn. lia.
  - cbn [Path.rfind_go String.length].
    assert ((if Ascii.eqb a c then i else last) < i + 1)%Z as H
      by (destruct (Ascii.eqb a c); lia).
    specialize (IH _ _ H). lia.
Qed.

Lemma rfind_go_shift c s i last :
  Path.rfind_go c s i last
  = if (Path.rfind c s <? 0)%Z then last else (i + Path.rfind c s)%Z.
Proof.
  revert i last. induction s as [|a s IH]; intros i last; [done|].
  unfold Path.rfind. cbn [Path.rfind_go].
  rewrite (IH (i + 1)%Z), (IH (0 + 1)%Z). fold (Path.rfind c s).
  destruct (Path.rfind c s <? 0)%Z eqn:Hr.
  - destruct (Ascii.eqb a c); cbn; [f_equal; lia|done].
  - apply Z.ltb_ge in Hr.
    assert ((0 + 1 + Path.rfind c s <? 0)%Z = false) as -> by (apply Z.ltb_ge; lia).
    lia.
Qed.

Lemma get_append_shift pre b k :
  String.get (String.length pre + k) (pre +:+ b) = String.get k b.
Proof. induction pre as [|a pre IH]; [done|]. rewrite append_cons. exact IH. Qed.

Lemma has_non_dot_shift pre b k n :
  Path.has_non_dot (pre +:+ b) (String.length pre + k) n = Path.has_non_dot b k n.
Proof.
  revert k. induction n as [|n IH]; intros k; [done|].
  cbn [Path.has_non_dot]. rewrite get_append_shift.
  destruct (String.get k b) as [c|]; [|done].
  destruct (Ascii.eqb c "."); [|done].
  rewrite <- (IH (S k)). f_equal. lia.
Qed.

Lemma substring_append_take pre b j :
  substring 0 (String.length pre + j) (pre +:+ b) = pre +:+ substring 0 j b.
Proof.
  induction pre as [|a pre IH]; [done|].
  rewrite !append_cons. cbn. by rewrite IH.
Qed.

Lemma substring_append_drop pre b j m :
  substring (String.length pre + j) m (pre +:+ b) = substring j m b.
Proof. induction pre as [|a pre IH]; [done|]. rewrite append_cons. exact IH. Qed.

(** For a name [b] without a slash, the extension of [d/b] is the
    extension of [b]. *)
Lemma splitext_in_directory d b :
  no_slash b = true →
  Path.splitext ((d +:+ "/") +:+ b)
  = ((d +:+ "/") +:+ fst (Path.splitext b), snd (Path.splitext b)).
Proof.
  intros Hb. set (pre := d +:+ "/").
  assert (Hlen : String.length pre = (String.length d + 1)%nat)
    by (unfold pre; by rewrite length_append).
  assert (Hsep_b : Path.rfind "/" b = (-1)%Z) by (by apply rfind_go_absent).
  assert (Hsep : Path.rfind "/" (pre +:+ b) = Z.of_nat (String.length d)).
  { unfold Path.rfind. rewrite rfind_go_app, (rfind_go_absent "/" b) by exact Hb.
    unfold pre. rewrite rfind_go_app. cbn. lia. }
  assert (Hdot : Path.rfind "." (pre +:+ b)
                 = if (Path.rfind "." b <? 0)%Z then Path.rfind "." d
                   else (Z.of_nat (String.length pre) + Path.rfind "." b)%Z).
  { unfold Path.rfind at 1. rewrite rfind_go_app, rfind_go_shift.
    destruct (Path.rfind "." b <? 0)%Z; [|f_equal; lia].
    unfold pre. rewrite rfind_go_app. reflexivity. }
  unfold Path.splitext. rewrite Hsep, Hdot, Hsep_b.
  destruct (Path.rfind "." b <? 0)%Z eqn:Hj.
  - pose proof (rfind_go_below "." d 0 (-1) ltac:(lia)) as Hd.
    fold (Path.rfind "." d) in Hd.
    assert ((Z.of_nat (String.length d) <? Path.rfind "." d)%Z = false) as ->
      by (apply Z.ltb_ge; lia).
    assert ((-1 <? Path.rfind "." b)%Z = false) as ->
      by (apply Z.ltb_ge; apply Z.ltb_lt in Hj; lia).
    reflexivity.
  - apply Z.ltb_ge in Hj.
    assert ((Z.of_nat (String.length d)
             <? Z.of_nat (String.length pre) + Path.rfind "." b)%Z = true) as ->
      by (apply Z.ltb_lt; lia).
    assert ((-1 <? Path.rfind "." b)%Z = true) as -> by (apply Z.ltb_lt; lia).
    cbn [andb].
    replace (Z.to_nat (Z.of_nat (String.length d) + 1)) with (String.length pre + 0)%nat by lia.
    replace (Z.to_nat (Z.of_nat (String.length pre) + Path.rfind "." b
                       - (Z.of_nat (String.length d) + 1)))
      with (Z.to_nat (Path.rfind "." b - (-1 + 1))) by lia.
    rewrite has_non_dot_shift.
    change (Z.to_nat (-1 + 1)) with 0%nat.
    destruct (Path.has_non_dot b 0 _); [|reflexivity].
    unfold Path.take, Path.drop. cbn [fst snd].
    replace (Z.to_nat (Z.of_nat (String.length pre) + Path.rfind "." b))
      with (String.length pre + Z.to_nat (Path.rfind "." b))%nat by lia.
    rewrite substring_append_take, substring_append_drop, length_append.
    do 2 f_equal. lia.
Qed.

Lemma endswith_slash_split d :
  Path.endswith_slash d = true → ∃ d', d = d' +:+ "/".
Proof.
  induction d as [|a d IH]; [done|]. cbn [Path.endswith_slash].
  destruct d as [|a' d].
  - intros ->%Ascii.eqb_eq. by exists "".
  - intros H. destruct (IH H) as [d' ->]. by exists (String a d').
Qed.

(** The extension of [os.path.join(d, b)], for a name [b] without a
    slash, is the extension of [b]. *)
Lemma splitext_join_extension d b :
  no_slash b = true →
  snd (Path.splitext (Path.join d b)) = snd (Path.splitext b).
Proof.
  intros Hb. unfold Path.join.
  assert (Str.startswith "/" b = false) as ->.
  { destruct b as [|a b]; [done|]. apply no_slash_cons in Hb as [Ha _].
    cbn [Str.startswith]. by rewrite Ascii.eqb_sym, Ha. }
  destruct d as [|a d]; [done|]. cbn [Str.is_empty orb].
  destruct (Path.endswith_slash (String a d)) eqn:Hend.
  - destruct (endswith_slash_split _ Hend) as [d' ->].
    by rewrite splitext_in_directory.
  - rewrite <- append_assoc. by rewrite splitext_in_directory.
Qed.

(** ** The Video Classifier *)

Lemma supported_extensions_list ext :
  ext ∈ SUPPORTED_EXTENSIONS ↔
  In ext [".mp4"; ".mov"; ".mkv"; ".avi"; ".webm"; ".m4v"; ".ts"; ".mts";
          ".m2ts"; ".3gp"].
Proof.
  unfold SUPPORTED_EXTENSIONS. rewrite !elem_of_union, !elem_of_singleton.
  cbn [In]. split.
  - intros H. repeat (destruct H as [H | H]); subst; auto 12.
  - intros H. repeat (destruct H as [H | H]); subst; try done; auto 12.
Qed.

(** C5.  The classifier is total, and answers true exactly for a path
    that resolves to a regular file and whose extension, lower-cased, is
    one of the ten listed; so a path that does not exist and a directory
    get false, as does a regular file ending in [.txt], while a regular
    file [a.MP4] gets true. *)
Theorem C5_video_classifier (disk : FS) (path : string) :
  (is_video_file disk path = true ↔
   (∃ content, disk !! path = Some (File content))
   ∧ In (Str.lower (snd (Path.splitext path)))
        [".mp4"; ".mov"; ".mkv"; ".avi"; ".webm"; ".m4v"; ".ts"; ".mts";
         ".m2ts"; ".3gp"])
  ∧ (disk !! path = None → is_video_file disk path = false)
  ∧ (∀ n, disk !! path = Some (Dir n) → is_video_file disk path = false)
  ∧ (∀ n, disk !! path = Some (Special n) → is_video_file disk path = false)
  ∧ (∀ dir content,
       is_video_file (<[Path.join dir "notes.txt" := File content]> disk)
         (Path.join dir "notes.txt") = false)
  ∧ (∀ dir content,
       is_video_file (<[Path.join dir "a.MP4" := File content]> disk)
         (Path.join dir "a.MP4") = true).
Proof.
  split; [split|].
  - unfold is_video_file, path_isfile.
    destruct (disk !! path) as [[content| |]|]; try discriminate.
    cbn [negb]. intros H%bool_decide_eq_true. split; [by exists content|].
    by apply supported_extensions_list.
  - intros [[content Hfile] Hext]. unfold is_video_file, path_isfile.
    rewrite Hfile. cbn [negb]. apply bool_decide_eq_true.
    by apply supported_extensions_list.
  - unfold is_video_file, path_isfile. split; [by intros ->|].
    split; [by intros n ->|]. split; [by intros n ->|].
    split; intros dir content; rewrite lookup_insert_eq;
      rewrite splitext_join_extension by reflexivity; reflexivity.
Qed.

(** ** The sort puts the names in natural order *)

Lemma key_lt_asym a b :
  key_shape a = true → key_shape b = true →
  key_lt a b = Ok true → key_lt b a = Ok false.
Proof.
  intros Ha Hb Hab. destruct (key_lt_defined b a Hb Ha) as [[] Hba]; [|done].
  pose proof (key_lt_trans _ _ _ Hab Hba) as Haa.
  by rewrite key_lt_irrefl in Haa.
Qed.

Lemma key_le_trans a b c :
  key_shape a = true → key_shape b = true → key_shape c = true →
  key_le a b → key_le b c → key_le a c.
Proof.
  unfold key_le. intros Ha Hb Hc Hba Hcb.
  destruct (key_lt_defined c a Hc Ha) as [[] Hca]; [|done].
  destruct (key_lt_defined a b Ha Hb) as [[] Hab].
  - pose proof (key_lt_trans _ _ _ Hca Hab) as Hcb'. congruence.
  - pose proof (key_lt_connected _ _ Hab Hba) as ->. congruence.
Qed.

Lemma insert_keyed_ascend (x : list key_elem * string) kl r :
  key_shape (fst x) = true →
  Forall (fun p => key_shape (fst p) = true) kl →
  keys_ascend kl →
  insert_keyed key_lt x kl = Ok r → keys_ascend r.
Proof.
  unfold keys_ascend. intros Hx. revert r.
  induction kl as [|y kl IH]; intros r Hshape Hsorted; cbn [insert_keyed].
  - intros [= <-]. repeat constructor.
  - inversion Hshape as [|? ? Hy Hkl]; subst.
    apply StronglySorted_cons in Hsorted as [Hyall Hsorted].
    destruct (key_lt (fst y) (fst x)) as [[]|] eqn:Hyx; cbn [rbind];
      [|intros [= <-]|discriminate].
    + destruct (insert_keyed key_lt x kl) as [r'|] eqn:Hins; cbn [rbind];
        [|discriminate].
      intros [= <-]. apply StronglySorted_cons. split; [|by apply IH].
      pose proof (insert_keyed_perm key_lt x kl r' Hins) as Hperm.
      rewrite Hperm. constructor; [|exact Hyall].
      unfold key_le. by apply key_lt_asym.
    + apply StronglySorted_cons. split;
        [|by apply StronglySorted_cons].
      constructor; [exact Hyx|].
      rewrite Forall_forall in Hyall, Hkl |- *. intros z Hz.
      apply (key_le_trans _ (fst y)); auto.
Qed.

Lemma sort_keyed_ascend (kl r : list (list key_elem * string)) :
  Forall (fun p => key_shape (fst p) = true) kl →
  sort_keyed key_lt kl = Ok r → keys_ascend r.
Proof.
  revert r. induction kl as [|x kl IH]; intros r Hshape; cbn [sort_keyed].
  - intros [= <-]. constructor.
  - inversion Hshape as [|? ? Hx Hkl]; subst.
    destruct (sort_keyed key_lt kl) as [s|] eqn:Hs; cbn [rbind]; [|discriminate].
    apply insert_keyed_ascend; [exact Hx| |by apply IH].
    by rewrite (sort_keyed_perm key_lt kl s Hs).
Qed.

Lemma keyed_items_keys (l : list string) kl :
  rmap_list (fun x => rbind (natural_sort_key x) (fun k => Ok (k, x))) l = Ok kl →
  Forall (fun p => natural_sort_key (snd p) = Ok (fst p)) kl.
Proof.
  revert kl. induction l as [|x l IH]; intros kl; cbn [rmap_list].
  - intros [= <-]. constructor.
  - destruct (natural_sort_key x) as [k|] eqn:Hk; cbn [rbind]; [|discriminate].
    destruct (rmap_list _ l) as [kl'|]; cbn [rbind]; [|discriminate].
    intros [= <-]. constructor; [exact Hk|by apply IH].
Qed.

(** A sort that returns gives the same names, every one with a key, in
    an order where no later key is below an earlier one. *)
Lemma natural_sort_ordered l sorted :
  natural_sort l = Ok sorted → Permutation sorted l ∧ in_natural_order sorted.
Proof.
  intros Hsort. split; [by eapply sort_by_key_perm|].
  unfold natural_sort, sort_by_key in Hsort.
  destruct (rmap_list _ l) as [kl|] eqn:Hkeys; cbn [rbind] in Hsort;
    [|discriminate].
  destruct (sort_keyed key_lt kl) as [s|] eqn:Hs; cbn [rbind] in Hsort;
    [|discriminate].
  injection Hsort as <-.
  pose proof (keyed_items_keys l kl Hkeys) as Hk.
  exists s. split; [reflexivity|]. split.
  - by rewrite (sort_keyed_perm key_lt kl s Hs).
  - apply (sort_keyed_ascend kl s); [|exact Hs].
    eapply Forall_impl; [exact Hk|]. intros p Hp.
    exact (natural_sort_key_shape _ _ Hp).
Qed.

(** When every name has a key the sort returns. *)
Lemma insert_keyed_returns (x : list key_elem * string) kl :
  key_shape (fst x) = true →
  Forall (fun p => key_shape (fst p) = true) kl →
  ∃ r, insert_keyed key_lt x kl = Ok r.
Proof.
  intros Hx. induction kl as [|y kl IH]; intros Hshape; cbn [insert_keyed].
  - by eexists.
  - inversion Hshape as [|? ? Hy Hkl]; subst.
    destruct (key_lt_defined (fst y) (fst x) Hy Hx) as [[] ->]; cbn [rbind].
    + destruct (IH Hkl) as [r ->]. by eexists.
    + by eexists.
Qed.

Lemma sort_keyed_returns (kl : list (list key_elem * string)) :
  Forall (fun p => key_shape (fst p) = true) kl →
  ∃ r, sort_keyed key_lt kl = Ok r.
Proof.
  induction kl as [|x kl IH]; intros Hshape; cbn [sort_keyed]; [by eexists|].
  inversion Hshape as [|? ? Hx Hkl]; subst.
  destruct (IH Hkl) as [s Hs]. rewrite Hs. cbn [rbind].
  apply insert_keyed_returns; [exact Hx|].
  by rewrite (sort_keyed_perm key_lt kl s Hs).
Qed.

(** Up to U+00FF, a list of names without superscript digits is
    sorted. *)
Lemma natural_sort_returns l :
  Forall (fun s => Str.forallb (fun c => negb (is_superscript c)) s = true) l →
  ∃ sorted, natural_sort l = Ok sorted.
Proof.
  intros Hl. unfold natural_sort, sort_by_key.
  assert (∃ kl, rmap_list (fun x => rbind (natural_sort_key x)
                                      (fun k => Ok (k, x))) l = Ok kl)
    as [kl Hkl].
  { induction l as [|x l IH]; [by eexists|].
    inversion Hl as [|? ? Hx Hl']; subst. cbn [rmap_list].
    destruct (natural_sort_key_defined x Hx) as (k & -> & _). cbn [rbind].
    destruct (IH Hl') as [kl ->]. by eexists. }
  rewrite Hkl. cbn [rbind].
  destruct (sort_keyed_returns kl) as [s ->]; [|by eexists].
  eapply Forall_impl; [exact (keyed_items_keys l kl Hkl)|].
  intros p Hp. exact (natural_sort_key_shape _ _ Hp).
Qed.

(** * Further properties of the program *)

Local Open Scope list_scope.

(** ** What the executor leaves behind *)

Lemma attempt_succeeds_output r output disk :
  attempt_succeeds r output disk = true →
  ∃ n, disk !! output = Some n ∧ 0 < node_size n.
Proof. by intros [_ H]%attempt_succeeds_iff. Qed.

(** The executor step by step: the result, the file system and the
    commands, for each way the two processes can end. *)
Lemma run_ffmpeg_concat_cases env list_file output w :
  let copy := cmd_copy list_file output in
  let reencode := cmd_reencode list_file output in
  let first := spawn env copy (fs w) in
  let second := spawn env reencode (snd first) in
  run_ffmpeg_concat env list_file output w
  = match fst first with
    | Raise e => (Raise e, after_spawn w [copy] (snd first))
    | Ok result1 =>
        if attempt_succeeds result1 output (snd first)
        then (Ok (true, "Merged with stream copy."),
              after_spawn w [copy] (snd first))
        else
          match fst second with
          | Raise e => (Raise e, after_spawn w [copy; reencode] (snd second))
          | Ok result2 =>
              if attempt_succeeds result2 output (snd second)
              then (Ok (true, "Merged with re-encode."),
                    after_spawn w [copy; reencode] (snd second))
              else (Ok (false,
                        str_or (stderr_text result1)
                          (str_or (stderr_text result2)
                             "Unknown error from ffmpeg")),
                    after_spawn w [copy; reencode] (snd second))
          end
    end.
Proof.
  intros copy reencode first second.
  unfold run_ffmpeg_concat, bind. fold copy reencode.
  rewrite subprocess_run_eval. fold first.
  destruct (fst first) as [result1|e]; [|reflexivity].
  rewrite attempt_ok_eval, fs_after_spawn.
  destruct (attempt_succeeds result1 output (snd first)); [reflexivity|].
  rewrite subprocess_run_eval, fs_after_spawn. fold second.
  rewrite after_spawn_twice.
  destruct (fst second) as [result2|e]; [|reflexivity].
  rewrite attempt_ok_eval, fs_after_spawn.
  by destruct (attempt_succeeds result2 output (snd second)).
Qed.

(** A success comes with the output on disk. *)
Lemma run_ffmpeg_concat_true env list_file output w w' text :
  run_ffmpeg_concat env list_file output w = (Ok (true, text), w') →
  attempt_succeeds_on_disk output (fs w')
  ∧ (text = "Merged with stream copy." ∨ text = "Merged with re-encode.")
  ∧ stdout w' = stdout w ∧ stderr w' = stderr w.
Proof.
  unfold attempt_succeeds_on_disk.
  rewrite run_ffmpeg_concat_cases. cbv zeta.
  destruct (fst (spawn env _ (fs w))) as [result1|e]; [|discriminate].
  destruct (attempt_succeeds result1 output _) eqn:Hok1.
  - intros [= <- <-]. rewrite fs_after_spawn.
    split; [by eapply attempt_succeeds_output|]. split; [by left|done].
  - destruct (fst (spawn env (cmd_reencode _ _) _)) as [result2|e];
      [|discriminate].
    destruct (attempt_succeeds result2 output _) eqn:Hok2; [|discriminate].
    intros [= <- <-]. rewrite fs_after_spawn.
    split; [by eapply attempt_succeeds_output|]. split; [by right|done].
Qed.

(** X1.  The executor reports success only when, at the moment it
    returns, the output path exists and is larger than zero bytes; the
    text it returns then names one of the two strategies. *)
Theorem X1_success_means_output_present (env : Env) (list_file output : string)
    (w w' : World) (text : string) :
  run_ffmpeg_concat env list_file output w = (Ok (true, text), w') →
  (∃ n, fs w' !! output = Some n ∧ 0 < node_size n)
  ∧ (text = "Merged with stream copy." ∨ text = "Merged with re-encode.").
Proof.
  intros Hrun.
  destruct (run_ffmpeg_concat_true _ _ _ _ _ _ Hrun) as (Hdisk & Htext & _).
  split; [exact Hdisk|exact Htext].
Qed.

Lemma X1_success_means_output_present_witness :
  ∃ n, (<["/d/out.mp4" := File "merged video"]> Demo.clips) !! "/d/out.mp4"
       = Some n ∧ 0 < node_size n.
Proof.
  exact (proj1 (X1_success_means_output_present
                  (Demo.env None Demo.ffmpeg_ok false)
                  "/d/list.txt" "/d/out.mp4" (Demo.world Demo.clips)
                  (after_spawn (Demo.world Demo.clips)
                     [cmd_copy "/d/list.txt" "/d/out.mp4"]
                     (<["/d/out.mp4" := File "merged video"]> Demo.clips))
                  "Merged with stream copy." eq_refl)).
Defined.

Lemma str_or_sentinel_nonempty a b :
  str_or a (str_or b "Unknown error from ffmpeg") ≠ "".
Proof. by destruct a, b. Qed.

(** X2.  A failure is reported only after both commands have been run,
    in the order copy, re-encode, and its text is never empty. *)
Theorem X2_failure_after_both_attempts (env : Env) (list_file output : string)
    (w w' : World) (text : string) :
  run_ffmpeg_concat env list_file output w = (Ok (false, text), w') →
  text ≠ ""
  ∧ spawned w'
    = (spawned w
       ++ [cmd_copy list_file output; cmd_reencode list_file output])%list.
Proof.
  rewrite run_ffmpeg_concat_cases. cbv zeta.
  destruct (fst (spawn env _ (fs w))) as [result1|e]; [|discriminate].
  destruct (attempt_succeeds result1 output _); [discriminate|].
  destruct (fst (spawn env (cmd_reencode _ _) _)) as [result2|e];
    [|discriminate].
  destruct (attempt_succeeds result2 output _); [discriminate|].
  intros [= <- <-]. split; [apply str_or_sentinel_nonempty|reflexivity].
Qed.

Lemma X2_failure_after_both_attempts_witness :
  "boom" ≠ ""
  ∧ spawned (after_spawn (Demo.world Demo.clips)
               [cmd_copy "/d/list.txt" "/d/out.mp4";
                cmd_reencode "/d/list.txt" "/d/out.mp4"] Demo.clips)
    = (spawned (Demo.world Demo.clips)
       ++ [cmd_copy "/d/list.txt" "/d/out.mp4";
           cmd_reencode "/d/list.txt" "/d/out.mp4"])%list.
Proof.
  exact (X2_failure_after_both_attempts
           (Demo.env None (Demo.ffmpeg_fail "boom") false)
           "/d/list.txt" "/d/out.mp4" (Demo.world Demo.clips)
           (after_spawn (Demo.world Demo.clips)
              [cmd_copy "/d/list.txt" "/d/out.mp4";
               cmd_reencode "/d/list.txt" "/d/out.mp4"] Demo.clips)
           "boom" eq_refl).
Defined.

(** ** What a run of [main] can do *)

Lemma print_each_eval l w :
  print_each l w
  = (Ok tt,
     {| fs := fs w; stdout := stdout w ++ map (fun f => " - " +:+ f) l;
        stderr := stderr w; spawned := spawned w; tempfiles := tempfiles w |}).
Proof.
  revert w. induction l as [|f l IH]; intros w.
  - cbn. rewrite app_nil_r. by destruct w.
  - cbn [print_each map]. unfold bind, print at 1. rewrite IH. cbn.
    by rewrite <- app_assoc.
Qed.

(** Announcing and building the manifest: either the temporary file
    cannot be created, and only the announcement has happened, or it is
    created, and then it is there whether the builder returns or raises. *)
Lemma create_manifest_eval env video_files w :
  let announced :=
    {| fs := fs w;
       stdout := stdout w ++ "Merging the following files in order:"
                 :: map (fun f => " - " +:+ f) video_files;
       stderr := stderr w; spawned := spawned w; tempfiles := tempfiles w |} in
  create_manifest env video_files w
  = match temp_name env (getcwd env) "_ffconcat.txt" (fs w) with
    | Ok name =>
        let outcome :=
          writing_outcome env (map (Path.join (getcwd env)) video_files)
            name w in
        (match fst outcome with
         | Some e => Raise e
         | None => Ok name
         end,
         with_manifest announced name (snd outcome))
    | Raise e => (Raise e, announced)
    end.
Proof.
  intros announced. unfold create_manifest, bind, print at 1.
  rewrite print_each_eval. cbn [fs stdout stderr spawned tempfiles].
  rewrite build_filelist_file_eval. cbn [fs stdout stderr spawned tempfiles].
  unfold announced. rewrite <- app_assoc.
  by destruct (temp_name env (getcwd env) "_ffconcat.txt" (fs w)).
Qed.

(** When the manifest has been built, the inputs are announced and the
    file holds their lines. *)
Lemma create_manifest_returns env video_files w list_file w2 :
  create_manifest env video_files w = (Ok list_file, w2) →
  temp_name env (getcwd env) "_ffconcat.txt" (fs w) = Ok list_file
  ∧ w2
    = {| fs := <[list_file :=
                  File (Str.concat
                          (map (manifest_line (getcwd env))
                             (map (Path.join (getcwd env)) video_files)))]>
                 (fs w);
         stdout := stdout w ++ "Merging the following files in order:"
                   :: map (fun f => " - " +:+ f) video_files;
         stderr := stderr w; spawned := spawned w;
         tempfiles := tempfiles w ++ [list_file] |}.
Proof.
  unfold create_manifest, bind, print at 1.
  rewrite print_each_eval. cbn [fs stdout stderr spawned tempfiles].
  match goal with
  | |- build_filelist_file ?e ?l ?d ?w0 = _ → _ =>
      intros Hb;
      destruct (build_filelist_file_returns e l d w0 list_file) as [Hname Hout];
        [by rewrite Hb|]
  end.
  rewrite Hout in Hb. injection Hb as <-. split; [exact Hname|].
  unfold with_manifest. cbn [fs stdout stderr spawned tempfiles].
  by rewrite <- app_assoc.
Qed.

Lemma merge_and_report_trace env list_file output w :
  let out := merge_and_report env list_file output w in
  tempfiles (snd out) = tempfiles w
  ∧ (spawned (snd out) = spawned w ++ [cmd_copy list_file output]
     ∨ spawned (snd out)
       = spawned w ++ [cmd_copy list_file output; cmd_reencode list_file output])
  ∧ (∀ c, fst out = Ok c → c = 0%Z ∨ c = 2%Z)
  ∧ (fst out = Ok 2%Z →
     spawned (snd out)
     = spawned w ++ [cmd_copy list_file output; cmd_reencode list_file output]).
Proof.
  cbv zeta. unfold merge_and_report, bind.
  rewrite run_ffmpeg_concat_cases. cbv zeta.
  destruct (fst (spawn env _ (fs w))) as [result1|e].
  2: { cbn. repeat split; auto; discriminate. }
  destruct (attempt_succeeds result1 output _).
  { cbn. repeat split; auto; try discriminate. intros c [= <-]. by left. }
  destruct (fst (spawn env (cmd_reencode _ _) _)) as [result2|e].
  2: { cbn. repeat split; auto; discriminate. }
  destruct (attempt_succeeds result2 output _).
  { cbn. repeat split; auto; try discriminate. intros c [= <-]. by left. }
  cbn [fst snd negb]. unfold eprint, ret. cbv beta iota.
  destruct (negb (Str.is_empty _)); cbn; repeat split; auto;
    intros c [= <-]; by right.
Qed.

Lemma cleanup_keeps_logs env list_file w :
  let w' := snd (cleanup env list_file w) in
  stdout w' = stdout w ∧ stderr w' = stderr w
  ∧ spawned w' = spawned w ∧ tempfiles w' = tempfiles w.
Proof. cbv zeta. rewrite cleanup_eval. cbn [snd]. by destruct (_ && _). Qed.

(** The run after the inputs are chosen. *)
Lemma merge_selected_eval env video_files output_path w :
  merge_selected env video_files output_path w
  = match create_manifest env video_files w with
    | (Ok list_file, w2) =>
        (fst (merge_and_report env list_file output_path w2),
         snd (cleanup env list_file
                (snd (merge_and_report env list_file output_path w2))))
    | (Raise e, w2) => (Raise e, w2)
    end.
Proof.
  rewrite merge_selected_stages. unfold bind.
  destruct (create_manifest env video_files w) as [[list_file|e] w2];
    [|reflexivity].
  apply try_finally_cleanup.
Qed.

(** When the builder raises after it has made its file, [main] ends with
    that exception: the call stands before the [try], so neither the merge
    nor the cleanup runs and the file stays. *)
Lemma main_builder_raises env w w1 video_files output_path name e :
  select_inputs env w = (Ok (Merge video_files output_path), w1) →
  temp_name env (getcwd env) "_ffconcat.txt" (fs w1) = Ok name →
  fst (create_manifest env video_files w1) = Raise e →
  fst (main env w) = Raise e
  ∧ (∃ content, fs (snd (main env w)) !! name = Some (File content))
  ∧ tempfiles (snd (main env w)) = tempfiles w ++ [name]
  ∧ spawned (snd (main env w)) = spawned w.
Proof.
  intros Hsel Hname Hraise.
  destruct (select_inputs_quiet env w) as (_ & Hsp & Htmp).
  rewrite Hsel in Hsp, Htmp. cbn [snd] in Hsp, Htmp.
  rewrite main_stages. unfold bind at 1 2 3 4. rewrite Hsel. cbn [run_plan].
  rewrite merge_selected_eval.
  rewrite create_manifest_eval, Hname in Hraise |- *. cbv zeta in Hraise |- *.
  cbn [fst] in Hraise. rewrite Hraise.
  cbn [fst snd with_manifest fs tempfiles spawned].
  split; [reflexivity|]. split; [eexists; apply lookup_insert_eq|].
  by rewrite Htmp, Hsp.
Qed.

(** C2.  A run that reaches manifest creation and leaves the manifest
    behind: a directory with three clips on a full disk.  The clips are
    found and announced and the temporary file is made; closing it raises
    [OSError], for what was written cannot be flushed.  The builder is
    called before the [try] of [main], so [main] ends with the exception,
    no process is started, and the temporary file, empty, is still on
    disk. *)
Theorem C2_manifest_left_when_the_builder_raises :
  let env := Demo.failing_close (Demo.env (Some "out.mp4") Demo.ffmpeg_ok false) in
  let final := main env (Demo.world Demo.clips) in
  fst (select_inputs env (Demo.world Demo.clips))
  = Ok (Merge ["clip1.mp4"; "clip2.mp4"; "clip10.mp4"] "/d/out.mp4")
  ∧ fst final = Raise OSError
  ∧ stdout (snd final)
    = ["Merging the following files in order:";
       " - clip1.mp4"; " - clip2.mp4"; " - clip10.mp4"]
  ∧ tempfiles (snd final) = ["/d/tmpab12_ffconcat.txt"]
  ∧ fs (snd final) !! "/d/tmpab12_ffconcat.txt" = Some (File "")
  ∧ spawned (snd final) = [].
Proof.
  intros env final.
  assert (Hfinal : final
                   = (Raise OSError,
                      with_manifest
                        (said (said (said (said (Demo.world Demo.clips)
                           "Merging the following files in order:")
                           " - clip1.mp4") " - clip2.mp4") " - clip10.mp4")
                        "/d/tmpab12_ffconcat.txt" "")) by reflexivity.
  rewrite Hfinal. cbn [fst snd with_manifest said fs stdout tempfiles spawned].
  split; [reflexivity|]. split; [reflexivity|]. split; [reflexivity|].
  split; [reflexivity|]. split; [apply lookup_insert_eq|reflexivity].
Qed.

(** The same when a write raises: the file made is left behind. *)
Example manifest_left_when_a_write_raises :
  let env := Demo.failing_write (Demo.env (Some "out.mp4") Demo.ffmpeg_ok false) in
  let final := main env (Demo.world Demo.clips) in
  fst final = Raise ValueError
  ∧ tempfiles (snd final) = ["/d/tmpab12_ffconcat.txt"]
  ∧ fs (snd final) !! "/d/tmpab12_ffconcat.txt" = Some (File "")
  ∧ spawned (snd final) = [].
Proof.
  intros env final.
  destruct (main_builder_raises env (Demo.world Demo.clips)
              (Demo.world Demo.clips)
              ["clip1.mp4"; "clip2.mp4"; "clip10.mp4"] "/d/out.mp4"
              "/d/tmpab12_ffconcat.txt" ValueError)
    as (Hraise & _ & Htmp & Hsp); [reflexivity ..|].
  fold final in Hraise, Htmp, Hsp.
  split; [exact Hraise|]. split; [exact Htmp|]. split; [|exact Hsp].
  reflexivity.
Qed.

Lemma select_inputs_exit_codes env w c w1 :
  select_inputs env w = (Ok (Exit c), w1) →
  (c = 1%Z ∧ which_ffmpeg env = None) ∨ (c = 0%Z ∧ which_ffmpeg env ≠ None).
Proof.
  unfold select_inputs.
  destruct (which_ffmpeg env); [|intros [= <- _]; by left].
  unfold bind, lift, get_fs.
  destruct (parsed_args env) as [args|]; [|discriminate]. cbv beta iota.
  destruct (listdir env (fs w)) as [names|]; [|discriminate]. cbv beta iota.
  destruct (natural_sort _) as [sorted|]; [|discriminate].
  destruct (_ || _); [intros [= <- _]; by right|].
  destruct (_ <? _)%nat; [intros [= <- _]; by right|discriminate].
Qed.

Lemma select_inputs_merge_found env w video_files output_path w1 :
  select_inputs env w = (Ok (Merge video_files output_path), w1) →
  which_ffmpeg env ≠ None.
Proof. unfold select_inputs. by destruct (which_ffmpeg env). Qed.

(** X3.  The value [main] returns is 0, 1 or 2.  It is 1 exactly when
    the tool is not found, and then nothing but two lines on standard
    error has happened; it is 2 only after both commands have been run. *)
Theorem X3_exit_codes (env : Env) (w : World) :
  (which_ffmpeg env = None →
   main env w
   = (Ok 1%Z,
      {| fs := fs w; stdout := stdout w;
         stderr := stderr w
                   ++ ["Error: ffmpeg is not installed or not in PATH.";
                       "Install via Homebrew: brew install ffmpeg"];
         spawned := spawned w; tempfiles := tempfiles w |}))
  ∧ (∀ c, fst (main env w) = Ok c →
          (c = 0%Z ∨ c = 1%Z ∨ c = 2%Z)
          ∧ (c = 1%Z ↔ which_ffmpeg env = None))
  ∧ (fst (main env w) = Ok 2%Z →
     ∃ list_file output_path,
       spawned (snd (main env w))
       = spawned w ++ [cmd_copy list_file output_path;
                       cmd_reencode list_file output_path]).
Proof.
  split; [|split].
  - intros Hnone. unfold main. rewrite Hnone. cbn. by rewrite <- app_assoc.
  - intros c. rewrite main_stages. unfold bind.
    destruct (select_inputs env w) as [[[code|video_files output_path]|e] w1]
      eqn:Hsel; [| |discriminate].
    + cbn. intros [= <-].
      destruct (select_inputs_exit_codes _ _ _ _ Hsel) as [[-> Hw]|[-> Hw]].
      * split; [auto|]. by split.
      * split; [auto|]. split; [discriminate|done].
    + pose proof (select_inputs_merge_found _ _ _ _ _ Hsel) as Hfound.
      cbn [run_plan]. rewrite merge_selected_eval.
      destruct (create_manifest env video_files w1) as [[list_file|e] w2];
        [|discriminate].
      cbn [fst]. intros Hc.
      destruct (merge_and_report_trace env list_file output_path w2)
        as (_ & _ & Hcodes & _).
      destruct (Hcodes c Hc) as [-> | ->]; (split; [auto|]);
        split; (discriminate || done).
  - rewrite main_stages. unfold bind.
    destruct (select_inputs env w) as [[[code|video_files output_path]|e] w1]
      eqn:Hsel; [| |discriminate].
    + cbn. intros [= ->].
      destruct (select_inputs_exit_codes _ _ _ _ Hsel) as [[? _]|[? _]];
        discriminate.
    + destruct (select_inputs_quiet env w) as (_ & Hsp & _).
      rewrite Hsel in Hsp. cbn [snd] in Hsp.
      cbn [run_plan]. rewrite merge_selected_eval.
      destruct (create_manifest env video_files w1) as [[list_file|e] w2]
        eqn:Hcm; [|discriminate].
      apply create_manifest_returns in Hcm as [_ Hw2].
      cbn [fst snd]. intros Hc. exists list_file, output_path.
      destruct (merge_and_report_trace env list_file output_path w2)
        as (_ & _ & _ & Hboth).
      destruct (cleanup_keeps_logs env list_file
                  (snd (merge_and_report env list_file output_path w2)))
        as (_ & _ & -> & _).
      rewrite (Hboth Hc). f_equal. rewrite Hw2. exact Hsp.
Qed.

(** X4.  One run of [main] creates at most one temporary file and starts
    at most two processes.  Either it creates none and starts none; or it
    creates the manifest and the builder then raises, so that [main] ends
    with that exception and no process is started; or it creates the
    manifest and runs the copy command on it, followed at most by the
    re-encode command on the same manifest and output. *)
Theorem X4_one_manifest_two_processes (env : Env) (w : World) :
  let w' := snd (main env w) in
  (tempfiles w' = tempfiles w ∧ spawned w' = spawned w)
  ∨ (∃ list_file,
       tempfiles w' = tempfiles w ++ [list_file]
       ∧ ((spawned w' = spawned w ∧ ∃ e, fst (main env w) = Raise e)
          ∨ ∃ output_path,
              spawned w' = spawned w ++ [cmd_copy list_file output_path]
              ∨ spawned w'
                = spawned w ++ [cmd_copy list_file output_path;
                                cmd_reencode list_file output_path])).
Proof.
  cbv zeta. rewrite main_stages. unfold bind.
  destruct (select_inputs_quiet env w) as (_ & Hsp & Htmp).
  destruct (select_inputs env w) as [[[code|video_files output_path]|e] w1];
    cbn [snd] in Hsp, Htmp; [by left| |by left].
  cbn [run_plan]. rewrite merge_selected_eval.
  pose proof (create_manifest_eval env video_files w1) as Hcm. cbv zeta in Hcm.
  destruct (create_manifest env video_files w1) as [[list_file|e] w2] eqn:Hman.
  - right. exists list_file. cbn [snd].
    destruct (cleanup_keeps_logs env list_file
                (snd (merge_and_report env list_file output_path w2)))
      as (_ & _ & -> & ->).
    destruct (merge_and_report_trace env list_file output_path w2)
      as (-> & Hspawn & _).
    apply create_manifest_returns in Hman as [_ ->].
    cbn [tempfiles spawned] in *. rewrite Htmp, Hsp in *.
    split; [reflexivity|]. right. by exists output_path.
  - destruct (temp_name env (getcwd env) "_ffconcat.txt" (fs w1)) as [name|].
    + right. exists name. injection Hcm as _ ->.
      cbn [snd fst with_manifest tempfiles spawned]. rewrite Htmp, Hsp.
      split; [reflexivity|]. left. split; [reflexivity|by exists e].
    + left. injection Hcm as _ ->. by cbn.
Qed.

(** ** The inputs [main] chooses *)

Lemma keys_ascend_filter (p : string → bool) kl :
  keys_ascend kl → keys_ascend (List.filter (fun q => p (snd q)) kl).
Proof.
  unfold keys_ascend. induction kl as [|x kl IH]; [done|].
  intros [Hall Hsorted]%StronglySorted_cons. cbn [List.filter].
  destruct (p (snd x)); [|by apply IH].
  apply StronglySorted_cons. split; [|by apply IH].
  rewrite Forall_forall in Hall |- *. intros q Hq. apply Hall.
  apply list_elem_of_In. apply list_elem_of_In in Hq.
  by apply filter_In in Hq as [? _].
Qed.

Lemma map_snd_filter (p : string → bool) (kl : list (list key_elem * string)) :
  map snd (List.filter (fun q => p (snd q)) kl) = List.filter p (map snd kl).
Proof.
  induction kl as [|x kl IH]; [done|]. cbn [List.filter map].
  destruct (p (snd x)); cbn [map]; by rewrite IH.
Qed.

(** Dropping names from a list in natural order leaves it in natural
    order. *)
Lemma in_natural_order_filter (p : string → bool) names :
  in_natural_order names → in_natural_order (List.filter p names).
Proof.
  intros (kl & <- & Hkeys & Hasc).
  exists (List.filter (fun q => p (snd q)) kl).
  split; [apply map_snd_filter|]. split; [|by apply keys_ascend_filter].
  rewrite Forall_forall in Hkeys |- *. intros q Hq. apply Hkeys.
  apply list_elem_of_In. apply list_elem_of_In in Hq.
  by apply filter_In in Hq as [? _].
Qed.

Lemma filter_permutation {A} (p : A → bool) (l l' : list A) :
  Permutation l l' → Permutation (List.filter p l) (List.filter p l').
Proof.
  induction 1 as [|x l l' _ IH|x y l|l l' l'' _ IH1 _ IH2]; cbn [List.filter].
  - reflexivity.
  - destruct (p x); [by constructor|exact IH].
  - destruct (p x), (p y); try reflexivity. apply perm_swap.
  - by etransitivity.
Qed.

(** X5.  When [main] goes on to merge, the inputs are exactly the
    entries of the directory listing that pass the hidden-file filter and
    the classifier and whose absolute path is not the output path, each as
    often as it is listed (so without [--include-hidden] none starts with
    a dot); they are in natural order, no later key below an earlier one;
    there are at least two; and nothing has been printed or changed
    yet. *)
Theorem X5_inputs_are_listed_visible_sorted_videos (env : Env) (w w1 : World)
    (video_files : list string) (output_path : string) :
  select_inputs env w = (Ok (Merge video_files output_path), w1) →
  ∃ args names,
    parsed_args env = Ok args
    ∧ listdir env (fs w) = Ok names
    ∧ Forall (fun f =>
                In f names
                ∧ (include_hidden args = false → Str.startswith "." f = false)
                ∧ is_video_file (fs w) (Path.join (getcwd env) f) = true)
             video_files
    ∧ Permutation video_files
        (exclude_output env output_path (qualifying env args (fs w) names))
    ∧ in_natural_order video_files
    ∧ (2 ≤ length video_files)%nat
    ∧ w1 = w.
Proof.
  unfold select_inputs.
  destruct (which_ffmpeg env); [|discriminate].
  unfold bind, lift, get_fs.
  destruct (parsed_args env) as [args|] eqn:Hargs; [|discriminate].
  cbv beta iota.
  destruct (listdir env (fs w)) as [names|] eqn:Hls; [|discriminate].
  cbv beta iota.
  destruct (natural_sort _) as [sorted|] eqn:Hsort; [|discriminate].
  destruct (_ || _); [discriminate|].
  destruct (_ <? _)%nat eqn:Hlen; [discriminate|].
  intros [= <- <- <-]. exists args, names.
  destruct (natural_sort_ordered _ _ Hsort) as [Hperm Hord].
  split; [reflexivity|]. split; [reflexivity|].
  split; [|split; [|split; [|split]]].
  2: { unfold exclude_output. by apply filter_permutation. }
  - apply Forall_forall. intros f Hf. apply list_elem_of_In in Hf.
    apply exclude_output_spec in Hf as [Hf _].
    apply list_elem_of_In in Hf. rewrite Hperm in Hf.
    apply list_elem_of_In in Hf. unfold qualifying in Hf.
    apply filter_In in Hf as [Hf Hvideo].
    apply filter_In in Hf as [Hf Hvis].
    split; [exact Hf|]. split; [|exact Hvideo].
    intros Hhid. unfold visible in Hvis. rewrite Hhid in Hvis.
    by apply negb_true_iff in Hvis.
  - unfold exclude_output. by apply in_natural_order_filter.
  - by apply Nat.ltb_ge.
  - reflexivity.
Qed.

Lemma X5_inputs_are_listed_visible_sorted_videos_witness :
  in_natural_order ["clip1.mp4"; "clip2.mp4"; "clip10.mp4"].
Proof.
  destruct (X5_inputs_are_listed_visible_sorted_videos
              (Demo.env (Some "out.mp4") Demo.ffmpeg_ok false)
              (Demo.world Demo.clips) (Demo.world Demo.clips)
              ["clip1.mp4"; "clip2.mp4"; "clip10.mp4"] "/d/out.mp4" eq_refl)
    as (args & names & _ & _ & _ & _ & Hord & _).
  exact Hord.
Defined.



(** X7.  The manifest builder prints nothing and starts no process.
    When it returns, it has changed nothing on disk but the file it
    names, and has logged that one temporary file.  When it raises,
    either the file could not be created and the world is left as it
    was, or the file was created and is still there, logged, with nothing
    else on disk changed. *)
Theorem X7_builder_touches_only_the_manifest (env : Env)
    (file_paths : list string) (directory : string) (w : World) :
  let out := build_filelist_file env file_paths directory w in
  let only_manifest := fun name =>
    (∀ q, q ≠ name → fs (snd out) !! q = fs w !! q)
    ∧ (∃ content, fs (snd out) !! name = Some (File content))
    ∧ tempfiles (snd out) = tempfiles w ++ [name] in
  stdout (snd out) = stdout w ∧ stderr (snd out) = stderr w
  ∧ spawned (snd out) = spawned w
  ∧ match fst out with
    | Ok name => only_manifest name
    | Raise e =>
        (temp_name env directory "_ffconcat.txt" (fs w) = Raise e
         ∧ snd out = w)
        ∨ ∃ name,
            temp_name env directory "_ffconcat.txt" (fs w) = Ok name
            ∧ only_manifest name
    end.
Proof.
  cbv zeta. rewrite build_filelist_file_eval.
  destruct (temp_name env directory "_ffconcat.txt" (fs w)) as [name|e];
    cbv zeta; cbn [fst snd with_manifest fs stdout stderr spawned tempfiles].
  2: { repeat split. by left. }
  assert (Honly : (∀ q, q ≠ name →
                     <[name := File (snd (writing_outcome env file_paths name w))]>
                       (fs w) !! q = fs w !! q)
                  ∧ (∃ content,
                       <[name := File (snd (writing_outcome env file_paths name w))]>
                         (fs w) !! name = Some (File content))
                  ∧ tempfiles w ++ [name] = tempfiles w ++ [name]).
  { split; [|split; [|reflexivity]].
    - intros q Hq. by apply lookup_insert_ne.
    - eexists. apply lookup_insert_eq. }
  repeat split.
  destruct (fst (writing_outcome env file_paths name w)) as [e|];
    [right; by exists name|exact Honly].
Qed.

(** ** More on natural sort keys *)

Lemma digits_not_text d : is_digits d = true → isdigit_text d = false.
Proof.
  unfold is_digits, isdigit_text, is_text. destruct d as [|c d]; [done|].
  cbn. intros [Hc _]%andb_true_iff. by rewrite Hc.
Qed.

Lemma keys_of_pieces pieces :
  alternating pieces = true →
  rmap_list key_of_text pieces
  = if existsb isdigit_text pieces then Raise ValueError
    else Ok (positional_key pieces).
Proof.
  induction pieces as [pieces IH] using (induction_ltof1 _ (@length _)).
  unfold ltof in IH. intros Halt.
  destruct pieces as [|t [|d rest]]; [discriminate| |].
  - cbn [alternating] in Halt. cbn [rmap_list existsb positional_key].
    rewrite (key_of_text_run t Halt). unfold isdigit_text. rewrite Halt.
    cbn [andb]. by destruct (Str.isdigit t).
  - rewrite alternating_cons2 in Halt.
    apply andb_true_iff in Halt as [[Ht Hd]%andb_true_iff Hrest].
    cbn [rmap_list existsb]. change (positional_key (t :: d :: rest))
      with (KStr (Str.lower t) :: KInt (Str.int_acc 0 d) :: positional_key rest).
    rewrite (key_of_text_run t Ht), (key_of_digits d Hd), (digits_not_text d Hd).
    unfold isdigit_text at 1. rewrite Ht. cbn [andb orb].
    destruct (Str.isdigit t); cbn [rbind orb]; [reflexivity|].
    rewrite (IH rest); [|cbn; lia|exact Hrest].
    by destruct (existsb isdigit_text rest).
Qed.

(** X8.  What [natural_sort_key] returns, for every name.  If some text
    piece of the split name passes [isdigit] (a run of superscript digits
    between or beside decimal digits) the call raises [ValueError], and it
    raises nothing else; otherwise the key is the pieces in order, text
    pieces lower-cased and digit pieces as their decimal value. *)
Theorem X8_key_or_value_error (s : string) :
  natural_sort_key s
  = if existsb isdigit_text (re_split_digits s) then Raise ValueError
    else Ok (positional_key (re_split_digits s)).
Proof.
  unfold natural_sort_key. apply keys_of_pieces.
  apply re_split_digits_alternating.
Qed.

(** *** Upper and lower case *)

Lemma char_lower_decimal c : Str.is_decimal (Str.char_lower c) = Str.is_decimal c.
Proof. destruct c as [[] [] [] [] [] [] [] []]; reflexivity. Qed.

Lemma char_lower_isdigit c :
  Str.char_isdigit (Str.char_lower c) = Str.char_isdigit c.
Proof. destruct c as [[] [] [] [] [] [] [] []]; reflexivity. Qed.

Lemma char_lower_idempotent c :
  Str.char_lower (Str.char_lower c) = Str.char_lower c.
Proof. destruct c as [[] [] [] [] [] [] [] []]; reflexivity. Qed.

Lemma char_lower_of_decimal c :
  Str.is_decimal c = true → Str.char_lower c = c.
Proof. destruct c as [[] [] [] [] [] [] [] []]; (reflexivity || discriminate). Qed.

Lemma lower_idempotent s : Str.lower (Str.lower s) = Str.lower s.
Proof.
  induction s as [|c s IH]; [done|].
  cbn [Str.lower]. by rewrite char_lower_idempotent, IH.
Qed.

Lemma lower_of_decimals s :
  Str.forallb Str.is_decimal s = true → Str.lower s = s.
Proof.
  induction s as [|c s IH]; [done|]. cbn [Str.forallb Str.lower].
  intros [Hc Hs]%andb_true_iff. by rewrite (char_lower_of_decimal c Hc), (IH Hs).
Qed.

Lemma lower_forall_decimal s :
  Str.forallb Str.is_decimal (Str.lower s) = Str.forallb Str.is_decimal s.
Proof.
  induction s as [|c s IH]; [done|].
  cbn [Str.forallb Str.lower]. by rewrite char_lower_decimal, IH.
Qed.

Lemma lower_forall_isdigit s :
  Str.forallb Str.char_isdigit (Str.lower s) = Str.forallb Str.char_isdigit s.
Proof.
  induction s as [|c s IH]; [done|].
  cbn [Str.forallb Str.lower]. by rewrite char_lower_isdigit, IH.
Qed.

Lemma lower_is_empty s : Str.is_empty (Str.lower s) = Str.is_empty s.
Proof. by destruct s. Qed.

Lemma lower_isdigit s : Str.isdigit (Str.lower s) = Str.isdigit s.
Proof. unfold Str.isdigit. by rewrite lower_is_empty, lower_forall_isdigit. Qed.

Lemma key_of_text_lower t : key_of_text (Str.lower t) = key_of_text t.
Proof.
  unfold key_of_text. rewrite lower_isdigit.
  destruct (Str.isdigit t); [|by rewrite lower_idempotent].
  unfold Str.int. rewrite lower_forall_decimal, lower_is_empty.
  destruct (negb (Str.is_empty t)); cbn [andb]; [|done].
  destruct (Str.forallb Str.is_decimal t) eqn:Hdec; [|done].
  by rewrite (lower_of_decimals t Hdec).
Qed.

Lemma re_split_digits_lower s :
  re_split_digits (Str.lower s) = map Str.lower (re_split_digits s).
Proof.
  induction s as [|c s IH]; [done|].
  cbn [Str.lower re_split_digits]. rewrite IH, char_lower_decimal.
  destruct (re_split_digits s) as [|t0 rest]; [done|]. cbn [map].
  destruct (Str.is_decimal c); [|done].
  destruct t0 as [|a t0]; [|done]. cbn [Str.lower].
  by destruct rest.
Qed.

Lemma natural_sort_key_lower s :
  natural_sort_key (Str.lower s) = natural_sort_key s.
Proof.
  unfold natural_sort_key. rewrite re_split_digits_lower.
  induction (re_split_digits s) as [|t pieces IH]; [done|].
  cbn [map rmap_list]. by rewrite key_of_text_lower, IH.
Qed.

(** X9.  Upper and lower case make no difference to the key: two names
    with the same lower-cased form get the same key (or both raise), so
    neither sorts before the other. *)
Theorem X9_key_ignores_case (a b : string) :
  Str.lower a = Str.lower b →
  natural_sort_key a = natural_sort_key b
  ∧ ∀ ka kb, natural_sort_key a = Ok ka → natural_sort_key b = Ok kb →
             key_lt ka kb = Ok false ∧ key_lt kb ka = Ok false.
Proof.
  intros Hab.
  assert (Hkey : natural_sort_key a = natural_sort_key b).
  { rewrite <- (natural_sort_key_lower a), <- (natural_sort_key_lower b).
    by rewrite Hab. }
  split; [exact Hkey|]. intros ka kb Ha Hb.
  rewrite Hkey, Hb in Ha. injection Ha as ->.
  split; apply key_lt_irrefl.
Qed.

Lemma X9_key_ignores_case_witness :
  natural_sort_key "Clip7.MP4" = natural_sort_key "cLIP7.mp4".
Proof.
  exact (proj1 (X9_key_ignores_case "Clip7.MP4" "cLIP7.mp4" eq_refl)).
Defined.

(** *** Digit runs compare by value *)

Lemma re_split_digits_head s : ∃ t0 rest, re_split_digits s = t0 :: rest.
Proof.
  pose proof (re_split_digits_alternating s) as H.
  destruct (re_split_digits s) as [|t0 rest]; [discriminate|]. by eexists _, _.
Qed.

Lemma re_split_digits_head_nonempty c s :
  Str.is_decimal c = false →
  ∃ t0 rest, re_split_digits (String c s) = String c t0 :: rest.
Proof.
  intros Hc. cbn [re_split_digits]. rewrite Hc.
  destruct (re_split_digits s) as [|t0 rest]; by eexists _, _.
Qed.

(** A digit run followed by something that does not start with a digit
    is a piece of its own. *)
Lemma re_split_digits_run d u :
  is_digits d = true → starts_with_digit u = false →
  re_split_digits (d +:+ u) = "" :: d :: re_split_digits u.
Proof.
  unfold is_digits. intros [Hne Hall]%andb_true_iff Hu.
  induction d as [|c d IH]; [done|]. clear Hne.
  cbn [Str.forallb] in Hall. apply andb_true_iff in Hall as [Hc Hd].
  rewrite append_cons. cbn [re_split_digits]. rewrite Hc.
  destruct d as [|c' d].
  - change ("" +:+ u) with u.
    destruct u as [|a u]; [reflexivity|]. cbn [starts_with_digit] in Hu.
    destruct (re_split_digits_head_nonempty a u Hu) as (t0 & rest & ->).
    reflexivity.
  - rewrite IH by done. reflexivity.
Qed.

(** Text before a digit run joins the piece in front of it. *)
Lemma re_split_digits_text t s t0 rest :
  is_text t = true → re_split_digits s = t0 :: rest →
  re_split_digits (t +:+ s) = (t +:+ t0) :: rest.
Proof.
  unfold is_text. intros Ht Hs. induction t as [|c t IH]; [exact Hs|].
  cbn [Str.forallb] in Ht. apply andb_true_iff in Ht as [Hc Ht].
  apply negb_true_iff in Hc.
  rewrite !append_cons. cbn [re_split_digits]. by rewrite (IH Ht), Hc.
Qed.

Lemma re_split_digits_text_run t d u :
  is_text t = true → is_digits d = true → starts_with_digit u = false →
  re_split_digits (t +:+ d +:+ u) = t :: d :: re_split_digits u.
Proof.
  intros Ht Hd Hu.
  rewrite (re_split_digits_text t (d +:+ u) "" (d :: re_split_digits u) Ht
             (re_split_digits_run d u Hd Hu)).
  by rewrite append_empty_r.
Qed.

Lemma natural_sort_key_text_run t d u ku :
  is_text t = true → Str.isdigit t = false → is_digits d = true →
  starts_with_digit u = false → natural_sort_key u = Ok ku →
  natural_sort_key (t +:+ d +:+ u)
  = Ok (KStr (Str.lower t) :: KInt (Str.int_acc 0 d) :: ku).
Proof.
  intros Ht Hnd Hd Hu Hku. unfold natural_sort_key in *.
  rewrite (re_split_digits_text_run t d u Ht Hd Hu). cbn [rmap_list].
  rewrite (key_of_text_run t Ht), Hnd, (key_of_digits d Hd), Hku. reflexivity.
Qed.

(** X10.  Two names that differ only in one run of decimal digits are
    ordered by the value of that run, not by its characters: the first is
    below the second exactly when its number is the smaller one, and
    equal numbers (leading zeros) give the same key. *)
Theorem X10_digit_runs_compare_by_value (t d1 d2 u : string)
    (ku : list key_elem) :
  is_text t = true → Str.isdigit t = false →
  is_digits d1 = true → is_digits d2 = true →
  starts_with_digit u = false → natural_sort_key u = Ok ku →
  ∃ k1 k2,
    natural_sort_key (t +:+ d1 +:+ u) = Ok k1
    ∧ natural_sort_key (t +:+ d2 +:+ u) = Ok k2
    ∧ key_lt k1 k2 = Ok (Str.int_acc 0 d1 <? Str.int_acc 0 d2)
    ∧ (Str.int_acc 0 d1 = Str.int_acc 0 d2 → k1 = k2).
Proof.
  intros Ht Hnd Hd1 Hd2 Hu Hku.
  exists (KStr (Str.lower t) :: KInt (Str.int_acc 0 d1) :: ku),
         (KStr (Str.lower t) :: KInt (Str.int_acc 0 d2) :: ku).
  split; [by apply natural_sort_key_text_run|].
  split; [by apply natural_sort_key_text_run|]. split.
  - cbn [key_lt elem_eqb elem_lt]. rewrite String.eqb_refl.
    destruct (Str.int_acc 0 d1 =? Str.int_acc 0 d2) eqn:Heq; [|reflexivity].
    apply N.eqb_eq in Heq. rewrite Heq, N.ltb_irrefl. apply key_lt_irrefl.
  - by intros ->.
Qed.

Lemma X10_digit_runs_compare_by_value_witness :
  ∃ k1 k2,
    natural_sort_key "clip9.mp4" = Ok k1
    ∧ natural_sort_key "clip010.mp4" = Ok k2
    ∧ key_lt k1 k2 = Ok true.
Proof.
  destruct (X10_digit_runs_compare_by_value "clip" "9" "010" ".mp4"
              [KStr ".mp"; KInt 4; KStr ""]
              eq_refl eq_refl eq_refl eq_refl eq_refl eq_refl)
    as (k1 & k2 & H1 & H2 & Hlt & _).
  exists k1, k2. split; [exact H1|]. split; [exact H2|exact Hlt].
Defined.

(** *** When the sort returns *)

Lemma natural_sort_key_raises_value_error s e :
  natural_sort_key s = Raise e → e = ValueError.
Proof.
  unfold natural_sort_key.
  rewrite (keys_of_pieces _ (re_split_digits_alternating s)).
  destruct (existsb isdigit_text (re_split_digits s)); [|discriminate].
  by intros [= <-].
Qed.

Lemma keyed_items_outcome (l : list string) :
  (∃ kl, rmap_list (fun x => rbind (natural_sort_key x) (fun k => Ok (k, x))) l
         = Ok kl)
  ∨ (rmap_list (fun x => rbind (natural_sort_key x) (fun k => Ok (k, x))) l
     = Raise ValueError
     ∧ Exists (fun s => natural_sort_key s = Raise ValueError) l).
Proof.
  induction l as [|x l IH]; [left; by eexists|]. cbn [rmap_list].
  destruct (natural_sort_key x) as [k|e] eqn:Hk; cbn [rbind].
  - destruct IH as [[kl ->]|[-> Hex]]; cbn [rbind].
    + left. by eexists.
    + right. split; [reflexivity|]. by apply Exists_cons_tl.
  - pose proof (natural_sort_key_raises_value_error x e Hk) as ->.
    right. split; [reflexivity|]. by apply Exists_cons_hd.
Qed.

(** X11.  The sort of names returns exactly when every name has a key.
    It then returns the same names rearranged so that no later key is
    below an earlier one.  When it raises, the exception is the
    [ValueError] of a name without a key; comparing keys never raises. *)
Theorem X11_sort_returns_iff_every_name_has_a_key (l : list string) :
  (Forall (fun s => ∃ k, natural_sort_key s = Ok k) l →
   ∃ sorted, natural_sort l = Ok sorted
             ∧ Permutation sorted l ∧ in_natural_order sorted)
  ∧ (∀ e, natural_sort l = Raise e →
          e = ValueError
          ∧ Exists (fun s => natural_sort_key s = Raise ValueError) l).
Proof.
  split.
  - intros Hkeys.
    assert (∃ sorted, natural_sort l = Ok sorted) as [sorted Hsort].
    { unfold natural_sort, sort_by_key.
      destruct (keyed_items_outcome l) as [[kl Hkl]|[_ Hex]].
      - rewrite Hkl. cbn [rbind].
        destruct (sort_keyed_returns kl) as [s ->]; [|by eexists].
        eapply Forall_impl; [exact (keyed_items_keys l kl Hkl)|].
        intros p Hp. exact (natural_sort_key_shape _ _ Hp).
      - exfalso. apply Exists_exists in Hex as (s & Hs & Hraise).
        rewrite Forall_forall in Hkeys.
        destruct (Hkeys s Hs) as [k Hk]. congruence. }
    exists sorted. split; [exact Hsort|]. by apply natural_sort_ordered.
  - intros e. unfold natural_sort, sort_by_key.
    destruct (keyed_items_outcome l) as [[kl Hkl]|[-> Hex]].
    + rewrite Hkl. cbn [rbind].
      destruct (sort_keyed_returns kl) as [s ->]; [|discriminate].
      eapply Forall_impl; [exact (keyed_items_keys l kl Hkl)|].
      intros p Hp. exact (natural_sort_key_shape _ _ Hp).
    + cbn [rbind]. by intros [= <-].
Qed.

(** ** A successful run *)

Lemma merge_and_report_zero env list_file output w :
  fst (merge_and_report env list_file output w) = Ok 0%Z →
  ∃ text w3,
    run_ffmpeg_concat env list_file output w = (Ok (true, text), w3)
    ∧ snd (merge_and_report env list_file output w)
      = said (said w3 text) ("Done: " +:+ output).
Proof.
  unfold merge_and_report, bind.
  destruct (run_ffmpeg_concat env list_file output w) as [[[[] text]|e] w3];
    cbn [fst snd].
  - intros _. by exists text, w3.
  - unfold eprint, ret. cbv beta iota.
    destruct (negb (Str.is_empty text)); discriminate.
  - discriminate.
Qed.

(** X12.  When [main] returns 0 after a merge, and the manifest is not
    itself the output path, the output path is on disk with a size above
    zero when [main] returns, and the last two lines printed are the
    strategy used and ["Done: "] followed by the output path. *)
Theorem X12_exit_zero_after_merge_means_output_on_disk (env : Env)
    (w w1 w2 : World) (video_files : list string)
    (output_path list_file : string) :
  select_inputs env w = (Ok (Merge video_files output_path), w1) →
  create_manifest env video_files w1 = (Ok list_file, w2) →
  fst (main env w) = Ok 0%Z →
  list_file ≠ output_path →
  (∃ n, fs (snd (main env w)) !! output_path = Some n ∧ 0 < node_size n)
  ∧ ∃ text,
      (text = "Merged with stream copy." ∨ text = "Merged with re-encode.")
      ∧ stdout (snd (main env w))
        = stdout w2 ++ [text; "Done: " +:+ output_path].
Proof.
  intros Hsel Hman Hzero Hne.
  assert (Hmain : main env w
                  = (fst (merge_and_report env list_file output_path w2),
                     snd (cleanup env list_file
                            (snd (merge_and_report env list_file output_path w2))))).
  { rewrite main_stages. unfold bind at 1. rewrite Hsel. cbn [run_plan].
    rewrite merge_selected_eval, Hman. reflexivity. }
  rewrite Hmain in Hzero |- *. cbn [fst snd] in *.
  destruct (merge_and_report_zero _ _ _ _ Hzero) as (text & w3 & Hrun & ->).
  destruct (run_ffmpeg_concat_true _ _ _ _ _ _ Hrun)
    as ((n & Hn & Hsize) & Htext & Hout & _).
  rewrite cleanup_eval. cbn [snd].
  split.
  - exists n. split; [|exact Hsize].
    destruct (_ && _); cbn [fs set_fs said]; [|exact Hn].
    by rewrite lookup_delete_ne.
  - exists text. split; [exact Htext|].
    destruct (_ && _); cbn [stdout set_fs said];
      by rewrite Hout, <- app_assoc.
Qed.

Lemma X12_exit_zero_after_merge_means_output_on_disk_witness :
  let env := Demo.env (Some "out.mp4") Demo.ffmpeg_ok false in
  ∃ n, fs (snd (main env (Demo.world Demo.clips))) !! "/d/out.mp4" = Some n
       ∧ 0 < node_size n.
Proof.
  intros env.
  exact (proj1 (X12_exit_zero_after_merge_means_output_on_disk env
                  (Demo.world Demo.clips) (Demo.world Demo.clips)
                  (snd (create_manifest env
                          ["clip1.mp4"; "clip2.mp4"; "clip10.mp4"]
                          (Demo.world Demo.clips)))
                  ["clip1.mp4"; "clip2.mp4"; "clip10.mp4"]
                  "/d/out.mp4" "/d/tmpab12_ffconcat.txt"
                  eq_refl eq_refl eq_refl ltac:(discriminate))).
Defined.

(** ** Names that are only a dot and an extension *)

Lemma splitext_dot_name e :
  Str.forallb (fun c => negb (Ascii.eqb c ".")) e = true →
  no_slash e = true →
  Path.splitext (String "." e) = (String "." e, "").
Proof.
  intros Hdot Hslash. unfold Path.splitext, Path.rfind.
  cbn [Path.rfind_go]. change (Ascii.eqb "." "/") with false.
  change (Ascii.eqb "." ".") with true. cbv iota.
  rewrite (rfind_go_absent "/" e) by exact Hslash.
  rewrite (rfind_go_absent "." e) by exact Hdot.
  reflexivity.
Qed.

(** X13.  A name that is just a dot followed by text without another
    dot, such as [.mp4], has no extension for the classifier: in whatever
    directory and whatever it is on disk, it is not a video file. *)
Theorem X13_dot_name_is_not_a_video (disk : FS) (dir e : string) :
  Str.forallb (fun c => negb (Ascii.eqb c ".")) e = true →
  no_slash e = true →
  is_video_file disk (Path.join dir (String "." e)) = false.
Proof.
  intros Hdot Hslash. unfold is_video_file.
  destruct (path_isfile disk _); [|reflexivity]. cbn [negb].
  rewrite splitext_join_extension.
  - by rewrite (splitext_dot_name e Hdot Hslash).
  - unfold no_slash in *. cbn [Str.forallb]. by rewrite Hslash.
Qed.

Lemma X13_dot_name_is_not_a_video_witness :
  is_video_file (<["/d/.mp4" := File "x"]> ∅) (Path.join "/d" ".mp4") = false.
Proof.
  exact (X13_dot_name_is_not_a_video (<["/d/.mp4" := File "x"]> ∅) "/d" "mp4"
           eq_refl eq_refl).
Defined.

(** ** Reading the manifest back *)

Lemma forallb_append (P : ascii → bool) s t :
  Str.forallb P (s +:+ t) = Str.forallb P s && Str.forallb P t.
Proof.
  induction s as [|c s IH]; [done|].
  rewrite append_cons. cbn [Str.forallb]. by rewrite IH, andb_assoc.
Qed.

Lemma forallb_replace_char (P : ascii → bool) old new s :
  Str.forallb P new = true → Str.forallb P s = true →
  Str.forallb P (Str.replace_char old new s) = true.
Proof.
  intros Hnew. induction s as [|c s IH]; [done|].
  cbn [Str.forallb Str.replace_char]. intros [Hc Hs]%andb_true_iff.
  destruct (Ascii.eqb c old).
  - by rewrite forallb_append, Hnew, (IH Hs).
  - cbn [Str.forallb]. by rewrite Hc, (IH Hs).
Qed.

Lemma split_newline_line body rest :
  no_newline body = true →
  Str.split_char "010" (body +:+ newline +:+ rest)
  = body :: Str.split_char "010" rest.
Proof.
  unfold no_newline. induction body as [|c body IH].
  - intros _. reflexivity.
  - cbn [Str.forallb]. intros [Hc Hbody]%andb_true_iff.
    apply negb_true_iff in Hc.
    rewrite append_cons. cbn [Str.split_char]. by rewrite Hc, (IH Hbody).
Qed.

Lemma manifest_line_append cwd p rest :
  manifest_line cwd p +:+ rest
  = ("file '" +:+ Str.replace_char "'" "'\''" (Path.abspath cwd p) +:+ "'")
    +:+ newline +:+ rest.
Proof. unfold manifest_line. by rewrite !append_assoc. Qed.

Lemma parse_line_of_path abs_path :
  parse_line ("file '" +:+ Str.replace_char "'" "'\''" abs_path +:+ "'")
  = Some abs_path.
Proof. unfold parse_line. cbn [after_prefix]. apply unquote_escaped. Qed.

Lemma manifest_body_no_newline abs_path :
  no_newline abs_path = true →
  no_newline ("file '" +:+ Str.replace_char "'" "'\''" abs_path +:+ "'") = true.
Proof.
  unfold no_newline. intros H. rewrite !forallb_append.
  rewrite (forallb_replace_char (fun c => negb (Ascii.eqb c "010"))
             "'" "'\''" abs_path eq_refl H).
  reflexivity.
Qed.

Lemma parse_lines_cons line l ls :
  parse_lines (line :: l :: ls)
  = match parse_line line, parse_lines (l :: ls) with
    | Some p, Some ps => Some (p :: ps)
    | _, _ => None
    end.
Proof. reflexivity. Qed.

Lemma parse_manifest_lines cwd file_paths :
  Forall (fun p => no_newline (Path.abspath cwd p) = true) file_paths →
  parse_manifest (Str.concat (map (manifest_line cwd) file_paths))
  = Some (map (Path.abspath cwd) file_paths).
Proof.
  unfold parse_manifest. induction file_paths as [|p rest IH]; [done|].
  intros Hall. inversion Hall as [|? ? Hp Hrest]; subst.
  cbn [map Str.concat]. rewrite manifest_line_append.
  rewrite split_newline_line by by apply manifest_body_no_newline.
  specialize (IH Hrest).
  destruct (Str.split_char "010" _) as [|l ls] eqn:Hsplit; [discriminate|].
  rewrite parse_lines_cons, parse_line_of_path, IH. reflexivity.
Qed.

Lemma complete_lines_cons line l ls :
  complete_lines (line :: l :: ls)
  = option_map (cons line) (complete_lines (l :: ls)).
Proof. reflexivity. Qed.

(** Without a newline in any path, the text of the manifest is one line
    per input. *)
Lemma text_lines_manifest cwd file_paths :
  Forall (fun p => no_newline (Path.abspath cwd p) = true) file_paths →
  text_lines (Str.concat (map (manifest_line cwd) file_paths))
  = Some (map (fun p =>
                 "file '" +:+ Str.replace_char "'" "'\''" (Path.abspath cwd p)
                 +:+ "'")
            file_paths).
Proof.
  unfold text_lines. induction file_paths as [|p rest IH]; [done|].
  intros Hall. inversion Hall as [|? ? Hp Hrest]; subst.
  cbn [map Str.concat]. rewrite manifest_line_append.
  rewrite split_newline_line by by apply manifest_body_no_newline.
  specialize (IH Hrest).
  destruct (Str.split_char "010" _) as [|l ls] eqn:Hsplit; [discriminate|].
  by rewrite complete_lines_cons, IH.
Qed.

(** C6.  When no absolute path of an input contains a newline and the
    builder returns, the file it names holds exactly one line per input,
    in list order; the line of an input is [file], a space and the quoted
    path: an opening quote, the path with every single quote replaced by
    the four characters quote-backslash-quote-quote, and a closing quote;
    and the quoted part reads back, by the quoting rule, as the path
    itself, so no quote is left open. *)
Theorem C6_manifest_one_line_per_input (env : Env) (file_paths : list string)
    (directory : string) (w : World) (name : string) :
  Forall (fun p => no_newline (Path.abspath (getcwd env) p) = true) file_paths →
  fst (build_filelist_file env file_paths directory w) = Ok name →
  let cwd := getcwd env in
  let quoted := fun p => "'" +:+ escape_quotes (Path.abspath cwd p) +:+ "'" in
  (∃ content,
     fs (snd (build_filelist_file env file_paths directory w)) !! name
     = Some (File content)
     ∧ text_lines content
       = Some (map (fun p => "file " +:+ quoted p) file_paths))
  ∧ Forall (fun p => unquote false (quoted p) = Some (Path.abspath cwd p))
      file_paths.
Proof.
  intros Hall Hname cwd quoted. split.
  - exists (Str.concat (map (manifest_line cwd) file_paths)).
    destruct (build_filelist_file_returns _ _ _ _ _ Hname) as [_ ->].
    cbn [snd with_manifest fs]. split; [apply lookup_insert_eq|].
    rewrite (text_lines_manifest cwd file_paths Hall). f_equal.
    apply map_ext. intros p. unfold quoted.
    by rewrite <- replace_quote_escape.
  - apply Forall_forall. intros p _. unfold quoted.
    rewrite <- replace_quote_escape. apply unquote_escaped.
Qed.

Lemma C6_manifest_one_line_per_input_witness :
  let env := Demo.env None Demo.ffmpeg_ok false in
  ∃ content,
    fs (snd (build_filelist_file env ["a.mp4"; "it's.mp4"] "/d" (Demo.world ∅)))
    !! "/d/tmpab12_ffconcat.txt" = Some (File content)
    ∧ text_lines content = Some ["file '/d/a.mp4'"; "file '/d/it'\''s.mp4'"].
Proof.
  intros env.
  destruct (C6_manifest_one_line_per_input env ["a.mp4"; "it's.mp4"] "/d"
              (Demo.world ∅) "/d/tmpab12_ffconcat.txt")
    as [(content & Hfile & Hlines) _];
    [by repeat constructor | reflexivity |].
  exists content. split; [exact Hfile|exact Hlines].
Defined.

(** A path with a newline in it is written as it is: the one input
    below gives two lines, neither of them [file] and a closed quoted
    path, and the first with its quote left open. *)
Lemma C6_newline_in_a_path_splits_its_line :
  let env := Demo.env None Demo.ffmpeg_ok false in
  let path := "/d/it's" +:+ newline +:+ "x.mp4" in
  let out := build_filelist_file env [path] "/d" (Demo.world ∅) in
  let quoted := fun p => "'" +:+ escape_quotes (Path.abspath "/d" p) +:+ "'" in
  ∃ content,
    fst out = Ok "/d/tmpab12_ffconcat.txt"
    ∧ fs (snd out) !! "/d/tmpab12_ffconcat.txt" = Some (File content)
    ∧ text_lines content = Some ["file '/d/it'\''s"; "x.mp4'"]
    ∧ text_lines content ≠ Some (map (fun p => "file " +:+ quoted p) [path])
    ∧ parse_line "file '/d/it'\''s" = None
    ∧ parse_line "x.mp4'" = None.
Proof.
  intros env path out quoted.
  exists ("file '/d/it'\''s" +:+ newline +:+ "x.mp4'" +:+ newline).
  split; [reflexivity|]. split; [reflexivity|]. split; [reflexivity|].
  split; [discriminate|]. split; reflexivity.
Qed.

(** X14.  Nothing about the inputs is lost in the manifest.  When no
    absolute path contains a newline and the builder returns, reading the
    file it wrote (cut at newlines, [file] and a quoted token on each
    line) gives back the absolute paths of the inputs, as many and in the
    same order; so two lists of inputs with the same manifest text have
    the same absolute paths. *)
Theorem X14_manifest_reads_back (env : Env) (file_paths : list string)
    (directory : string) (w : World) (name : string) :
  Forall (fun p => no_newline (Path.abspath (getcwd env) p) = true) file_paths →
  fst (build_filelist_file env file_paths directory w) = Ok name →
  (∃ content,
     fs (snd (build_filelist_file env file_paths directory w)) !! name
     = Some (File content)
     ∧ parse_manifest content
       = Some (map (Path.abspath (getcwd env)) file_paths))
  ∧ ∀ others,
      Forall (fun p => no_newline (Path.abspath (getcwd env) p) = true) others →
      Str.concat (map (manifest_line (getcwd env)) others)
      = Str.concat (map (manifest_line (getcwd env)) file_paths) →
      map (Path.abspath (getcwd env)) others
      = map (Path.abspath (getcwd env)) file_paths.
Proof.
  intros Hall Hname. split.
  - exists (Str.concat (map (manifest_line (getcwd env)) file_paths)).
    destruct (build_filelist_file_returns _ _ _ _ _ Hname) as [_ ->].
    cbn [snd with_manifest fs].
    split; [apply lookup_insert_eq|by apply parse_manifest_lines].
  - intros others Hothers Heq.
    pose proof (parse_manifest_lines (getcwd env) others Hothers) as H1.
    pose proof (parse_manifest_lines (getcwd env) file_paths Hall) as H2.
    rewrite Heq, H2 in H1. by injection H1.
Qed.

Lemma X14_manifest_reads_back_witness :
  parse_manifest ("file '/d/a.mp4'" +:+ newline
                  +:+ "file '/d/it'\''s.mp4'" +:+ newline)
  = Some ["/d/a.mp4"; "/d/it's.mp4"].
Proof.
  destruct (X14_manifest_reads_back (Demo.env None Demo.ffmpeg_ok false)
              ["a.mp4"; "sub/../it's.mp4"] "/d" (Demo.world ∅)
              "/d/tmpab12_ffconcat.txt")
    as [(content & Hfile & Hparse) _];
    [by repeat constructor | reflexivity |].
  change (fs _ !! _)
    with (<["/d/tmpab12_ffconcat.txt" :=
              File ("file '/d/a.mp4'" +:+ newline
                    +:+ "file '/d/it'\''s.mp4'" +:+ newline)]>
            (∅ : FS) !! "/d/tmpab12_ffconcat.txt") in Hfile.
  rewrite lookup_insert_eq in Hfile.
  injection Hfile as <-. exact Hparse.
Defined.

(** * video_2.py *)

(** ** The file name made up for a video *)














(** ** The address a video is fetched from *)

Lemma startswith_append_self old rest : Str.startswith old (old +:+ rest) = true.
Proof.
  induction old as [|a old IH]; [done|].
  rewrite append_cons. cbn [Str.startswith]. by rewrite Ascii.eqb_refl, IH.
Qed.

Lemma startswith_append_short p s t :
  (String.length p ≤ String.length s)%nat →
  Str.startswith p (s +:+ t) = Str.startswith p s.
Proof.
  revert s. induction p as [|a p IH]; intros [|b s]; cbn [String.length];
    try done; try lia.
  intros Hlen. rewrite append_cons. cbn [Str.startswith].
  rewrite IH by lia. reflexivity.
Qed.

Lemma replace_go_skip old new x s :
  Veo.replace_go old new (String.length x) (x +:+ s) = Veo.replace_go old new 0 s.
Proof.
  induction x as [|c x IH]; [done|]. rewrite append_cons. exact IH.
Qed.

(** Where [old] does not occur, nothing is replaced. *)
Lemma replace_absent old new s :
  Veo.occurs old s = false → Veo.replace old new s = s.
Proof.
  unfold Veo.replace. induction s as [|c s IH]; [done|].
  cbn [Veo.occurs]. intros [Hhere Hlater]%orb_false_iff.
  cbn [Veo.replace_go]. by rewrite Hhere, (IH Hlater).
Qed.

(** A match at the very start is replaced, and the scan goes on behind
    it. *)
Lemma replace_at_start a old' new rest :
  Veo.replace (String a old') new (String a old' +:+ rest)
  = new +:+ Veo.replace (String a old') new rest.
Proof.
  unfold Veo.replace. rewrite append_cons. cbn [Veo.replace_go].
  rewrite <- append_cons, startswith_append_self.
  replace (String.length (String a old') - 1)%nat with (String.length old')
    by (cbn [String.length]; lia).
  by rewrite replace_go_skip.
Qed.

(** A single match, at the very end. *)
Lemma replace_at_end a pre z new b :
  let old := String a pre +:+ String z "" in
  Veo.occurs old (b +:+ String a pre) = false →
  Veo.replace old new (b +:+ old) = b +:+ new.
Proof.
  intros old. induction b as [|c b IH].
  - intros _. change ("" +:+ old) with old. change ("" +:+ new) with new.
    rewrite <- (append_empty_r old) at 2. unfold old at 1 2.
    rewrite append_cons, replace_at_start. cbn. apply append_empty_r.
  - rewrite !append_cons. cbn [Veo.occurs].
    intros [Hhere Hlater]%orb_false_iff. specialize (IH Hlater).
    unfold Veo.replace in *. cbn [Veo.replace_go].
    assert (Str.startswith old (String c (b +:+ old)) = false) as ->.
    { rewrite <- Hhere. unfold old at 2.
      rewrite <- append_cons, <- append_assoc.
      apply startswith_append_short.
      unfold old. rewrite !append_cons. cbn [String.length].
      rewrite !length_append. cbn [String.length]. lia. }
    by rewrite IH.
Qed.

Lemma endswith_append b suffix : Veo.endswith suffix (b +:+ suffix) = true.
Proof.
  induction b as [|c b IH].
  - change ("" +:+ suffix) with suffix.
    destruct suffix; cbn [Veo.endswith]; by rewrite String.eqb_refl.
  - rewrite append_cons. cbn [Veo.endswith]. by rewrite IH, orb_true_r.
Qed.

(** X16.  For a generator whose base address ends in [/v1beta] (and has
    it nowhere else) and a URI under the Google files address (which does
    not come again in the rest), the video is fetched from the base
    address with [/v1beta] turned into [/download], a slash, and the rest
    of the URI. *)
Theorem X16_download_address (b rest : string) :
  Veo.occurs "/v1beta" (b +:+ "/v1bet") = false →
  Veo.occurs Veo.google_files rest = false →
  Veo.download_url (b +:+ "/v1beta") (Veo.google_files +:+ rest)
  = b +:+ "/download" +:+ "/" +:+ rest.
Proof.
  intros Hbase Huri. unfold Veo.download_url.
  rewrite startswith_append_self, endswith_append.
  assert (Veo.replace Veo.google_files "" (Veo.google_files +:+ rest) = rest)
    as ->.
  { unfold Veo.google_files. rewrite replace_at_start.
    change ("" +:+ ?x) with x. by apply replace_absent. }
  pose proof (replace_at_end "/" "v1bet" "a" "/download" b Hbase) as Hend.
  cbv zeta in Hend. change ("/v1bet" +:+ "a") with "/v1beta" in Hend.
  rewrite Hend. by rewrite append_assoc.
Qed.

Lemma X16_download_address_witness :
  Veo.download_url "https://api.thucchien.ai/gemini/v1beta"
    "https://generativelanguage.googleapis.com/v1beta/files/abc123:download?alt=media"
  = "https://api.thucchien.ai/gemini/download/v1beta/files/abc123:download?alt=media".
Proof.
  exact (X16_download_address "https://api.thucchien.ai/gemini"
           "v1beta/files/abc123:download?alt=media" eq_refl eq_refl).
Defined.

(** A URI from elsewhere and a base address without the ending are put
    together as they are. *)
Example download_address_unchanged :
  Veo.download_url "http://localhost:4000" "files/abc"
  = "http://localhost:4000/files/abc".
Proof. reflexivity. Qed.

(** Every [/v1beta] of the base address is replaced, not only the one
    at its end. *)
Example download_address_replaces_all :
  Veo.download_url "http://h/v1beta/x/v1beta" "f" = "http://h/download/x/download/f".
Proof. reflexivity. Qed.

(** * Where the count checks and the order hold *)

(** The sort returns when every name has a key. *)
Lemma natural_sort_keyed_returns l :
  Forall (fun s => ∃ k, natural_sort_key s = Ok k) l →
  ∃ sorted, natural_sort l = Ok sorted.
Proof.
  intros Hkeys. unfold natural_sort, sort_by_key.
  destruct (keyed_items_outcome l) as [[kl Hkl]|[_ Hex]].
  - rewrite Hkl. cbn [rbind].
    destruct (sort_keyed_returns kl) as [s ->]; [|by eexists].
    eapply Forall_impl; [exact (keyed_items_keys l kl Hkl)|].
    intros p Hp. exact (natural_sort_key_shape _ _ Hp).
  - exfalso. apply Exists_exists in Hex as (s & Hs & Hraise).
    rewrite Forall_forall in Hkeys.
    destruct (Hkeys s Hs) as [k Hk]. congruence.
Qed.

(** X17.  With the tool found, the arguments parsed, the directory
    listed and a key computed for every qualifying name, fewer than two
    qualifying files (before or after taking out the output path) make
    [main] return 0 after printing one line, with nothing else changed: no
    manifest, no process. *)
Theorem X17_nothing_to_do (env : Env) (w : World) (args : Namespace)
    (names : list string) :
  which_ffmpeg env ≠ None →
  parsed_args env = Ok args →
  listdir env (fs w) = Ok names →
  Forall (fun s => ∃ k, natural_sort_key s = Ok k)
    (qualifying env args (fs w) names) →
  (length (qualifying env args (fs w) names) < 2
   ∨ length (exclude_output env (resolved_output env args)
               (qualifying env args (fs w) names)) < 2)%nat →
  ∃ line,
    main env w = (Ok 0%Z, said w line)
    ∧ (line = "Found fewer than 2 video files to merge. Nothing to do."
       ∨ line = "After filtering, fewer than 2 inputs remain. Nothing to do.").
Proof.
  intros Hwhich Hargs Hls Hkeys Hfew.
  destruct (natural_sort_keyed_returns _ Hkeys) as [sorted Hsort].
  pose proof (sort_by_key_perm _ _ _ _ Hsort) as Hperm.
  destruct (Nat.lt_ge_cases (length sorted) 2) as [Hlt|Hge].
  - eexists. split; [by eapply few_after_classification|by left].
  - eexists. split; [|by right].
    eapply few_after_exclusion; try eassumption.
    destruct Hfew as [Hfew|Hfew].
    + rewrite (Permutation_length Hperm) in Hge. lia.
    + unfold exclude_output in *.
      by rewrite (Permutation_length (filter_permutation _ _ _ Hperm)).
Qed.

Lemma X17_nothing_to_do_witness :
  ∃ line,
    main (Demo.env (Some "clip2.mp4") Demo.ffmpeg_ok false)
      (Demo.world (<["/d/clip1.mp4" := File "one"]>
                     (<["/d/clip2.mp4" := File "two"]> ∅)))
    = (Ok 0%Z,
       said (Demo.world (<["/d/clip1.mp4" := File "one"]>
                           (<["/d/clip2.mp4" := File "two"]> ∅))) line).
Proof.
  destruct (X17_nothing_to_do
              (Demo.env (Some "clip2.mp4") Demo.ffmpeg_ok false)
              (Demo.world (<["/d/clip1.mp4" := File "one"]>
                             (<["/d/clip2.mp4" := File "two"]> ∅)))
              {| output := Some "clip2.mp4"; include_hidden := false |}
              ["clip1.mp4"; "clip2.mp4"])
    as (line & Hmain & _).
  - discriminate.
  - reflexivity.
  - reflexivity.
  - repeat constructor; eexists; reflexivity.
  - right. vm_compute. lia.
  - by exists line.
Defined.

(** X18.  On names that have keys, comparing keys never raises and
    orders the names as a strict weak order: no key is below itself, being
    below is transitive, and two names neither of which is below the other
    have the same key, so that being incomparable is transitive too. *)
Theorem X18_keyed_names_strict_weak_order (a b c : string)
    (ka kb kc : list key_elem) :
  natural_sort_key a = Ok ka →
  natural_sort_key b = Ok kb →
  natural_sort_key c = Ok kc →
  (∃ r, key_lt ka kb = Ok r)
  ∧ key_lt ka ka = Ok false
  ∧ (key_lt ka kb = Ok true → key_lt kb kc = Ok true → key_lt ka kc = Ok true)
  ∧ (key_lt ka kb = Ok false → key_lt kb ka = Ok false → ka = kb)
  ∧ (key_lt ka kb = Ok false → key_lt kb ka = Ok false →
     key_lt kb kc = Ok false → key_lt kc kb = Ok false →
     key_lt ka kc = Ok false ∧ key_lt kc ka = Ok false).
Proof.
  intros Ha Hb Hc.
  pose proof (natural_sort_key_shape _ _ Ha) as Hsa.
  pose proof (natural_sort_key_shape _ _ Hb) as Hsb.
  split; [by apply key_lt_defined|].
  split; [apply key_lt_irrefl|].
  split; [apply key_lt_trans|].
  split; [apply key_lt_connected|].
  intros H1 H2 H3 H4.
  rewrite (key_lt_connected _ _ H1 H2), (key_lt_connected _ _ H3 H4).
  split; apply key_lt_irrefl.
Qed.

Lemma X18_keyed_names_strict_weak_order_witness :
  ∃ r, key_lt [KStr "clip"; KInt 2; KStr ".mp"; KInt 4; KStr ""]
         [KStr "clip"; KInt 10; KStr ".mp"; KInt 4; KStr ""] = Ok r.
Proof.
  exact (proj1 (X18_keyed_names_strict_weak_order
                  "clip2.mp4" "clip10.mp4" "Clip10.MP4"
                  [KStr "clip"; KInt 2; KStr ".mp"; KInt 4; KStr ""]
                  [KStr "clip"; KInt 10; KStr ".mp"; KInt 4; KStr ""]
                  [KStr "clip"; KInt 10; KStr ".mp"; KInt 4; KStr ""]
                  eq_refl eq_refl eq_refl)).
Defined.
